(** * DistortionSim: the experiment layer ([simulator.py]) and the solver
    contracts it relies on.

  The [Simulator] class runs one matching mechanism of the [solver]
  module on a weighted bipartite graph, scores the matching with one
  of the two distortion functions and appends one row to its history.
  The methods are embedded as programs of a small state-and-exception
  monad; every call into [solver] is recorded in a trace, so that the
  statements can speak about which solver functions a method invokes
  and in which order. *)

From stdpp Require Import base gmap strings list pretty.
From Stdlib Require Import ZArith QArith Qminmax Lqa Lia.

Open Scope Z_scope.

(** ** Python values and exceptions *)

Module Py.

(** The exceptions that can escape an experiment method: a missing
    dictionary key, or whatever a solver function raises. *)
Inductive exn :=
| KeyError (key : string)
| SolverError (name : string).

Inductive result (A : Type) :=
| Ok (a : A)
| Raise (e : exn).
Arguments Ok {A} a.
Arguments Raise {A} e.

(** [str] on an [int]. *)
Definition str_int (z : Z) : string := pretty z.

(** [a // b] on [int]s. *)
Definition floordiv (a b : Z) : Z := a `div` b.

(** [len] of a list. *)
Definition len {A} (l : list A) : Z := Z.of_nat (length l).

End Py.
Import Py.

(** * The model *)

(** ** The simulator *)

Section Simulator.


(** The objects of [networkx], [instance_generator] and [solver] that
    the simulator only passes around.  [nodes] is [G.nodes];
    [str_epsilon] is [str] on the number given as [epsilon]. *)
Context {Graph Matching Distortion Epsilon InstanceGenerator : Type}.
Variable nodes : Graph → list Z.
Variable str_epsilon : Epsilon → string.

(** What a history list can hold. *)
Inductive value :=
| VInt (z : Z)
| VNone
| VStr (s : string)
| VNum (d : Distortion).

(** The attributes of a [Simulator] object. *)
Record Simulator := mkSimulator {
  instance_generator : InstanceGenerator;
  history : gmap string (list value);
  id : Z
}.

(** The functions of the [solver] module.  A call receives the graph
    object and returns, next to its result, the state the graph
    object is left in: Python passes [G] by reference.  An omitted
    keyword argument is [None]. *)
Record Solver := mkSolver {
  serial_dictatorship : Graph → option Z → Graph * result Matching;
  partial_max_matching : Graph → Z → option Z → Graph * result Matching;
  modified_max_matching : Graph → string → option Z → Graph * result Matching;
  top_trading_cycles : Graph → option Z → Graph * result Matching;
  epsilon_max_matching :
    Graph → Epsilon → option string → option Z → Graph * result Matching;
  twothirds_max_matching : Graph → string → option Z → Graph * result Matching;
  updated_hybrid_max_matching : Graph → option Z → Graph * result Matching;
  reassign_labels : Graph → Matching → Graph * result Graph;
  calculate_distortion : Graph → Matching → Graph * result Distortion;
  calculate_modified_distortion :
    Graph → Matching → string → Graph * result Distortion
}.

(** One entry of the trace: the solver function called and the
    arguments it was called with. *)
Inductive solver_call :=
| call_serial_dictatorship (G : Graph) (agent_cap : option Z)
| call_partial_max_matching (G : Graph) (m : Z) (agent_cap : option Z)
| call_modified_max_matching (G : Graph) (prio : string) (agent_cap : option Z)
| call_top_trading_cycles (G : Graph) (agent_cap : option Z)
| call_epsilon_max_matching
    (G : Graph) (epsilon : Epsilon) (prio : option string) (agent_cap : option Z)
| call_twothirds_max_matching (G : Graph) (prio : string) (agent_cap : option Z)
| call_updated_hybrid_max_matching (G : Graph) (agent_cap : option Z)
| call_reassign_labels (G : Graph) (M : Matching)
| call_calculate_distortion (G : Graph) (M : Matching)
| call_calculate_modified_distortion (G : Graph) (M : Matching) (prio : string).

(** The scoring calls among them. *)
Definition is_scoring (c : solver_call) : bool :=
  match c with
  | call_calculate_distortion _ _ | call_calculate_modified_distortion _ _ _ => true
  | _ => false
  end.

(** What a method call can touch: the simulator object, the graph
    object it was given, and the trace of solver calls. *)
Record world := mkWorld {
  self : Simulator;
  graph : Graph;
  trace : list solver_call
}.

(** Programs: state passing with exceptions.  The state that an
    exception leaves behind is kept. *)
Definition prog (A : Type) : Type := world → result A * world.

Definition ret {A} (a : A) : prog A := λ w, (Ok a, w).

Definition bind {A B} (p : prog A) (k : A → prog B) : prog B :=
  λ w, match p w with
       | (Ok a, w') => k a w'
       | (Raise e, w') => (Raise e, w')
       end.

#[global] Instance prog_ret : MRet prog := @ret.
#[global] Instance prog_bind : MBind prog := λ A B k p, bind p k.

Variable solver : Solver.

(** A solver call on the graph object [G] of the caller. *)
Definition on_G {A} (ev : Graph → solver_call)
    (f : Graph → Graph * result A) : prog A :=
  λ w, let out := f (graph w) in
       (out.2, {| self := self w; graph := out.1;
                  trace := trace w ++ [ev (graph w)] |}).

(** A solver call on a graph [H] built inside the method. *)
Definition on_local {A} (H : Graph) (ev : Graph → solver_call)
    (f : Graph → Graph * result A) : prog A :=
  λ w, ((f H).2, {| self := self w; graph := graph w;
                    trace := trace w ++ [ev H] |}).

(** [len(G.nodes)//2] *)
Definition half_nodes : prog Z :=
  λ w, (Ok (floordiv (len (nodes (graph w))) 2), w).

(** [if size is None: size = len(G.nodes)//2] *)
Definition default_size (size : option Z) : prog Z :=
  match size with
  | None => half_nodes
  | Some n => ret n
  end.

Definition set_history (h : gmap string (list value)) (w : world) : world :=
  {| self := {| instance_generator := instance_generator (self w);
                history := h; id := id (self w) |};
     graph := graph w; trace := trace w |}.

(** [self.history[key].append(<arg>)]: the list is looked up first,
    then the argument is evaluated, then the value is appended. *)
Definition history_append_eval (key : string) (arg : prog value) : prog unit :=
  λ w, match history (self w) !! key with
       | None => (Raise (KeyError key), w)
       | Some l =>
           match arg w with
           | (Raise e, w') => (Raise e, w')
           | (Ok v, w') =>
               (Ok tt, set_history (<[key := l ++ [v]]> (history (self w'))) w')
           end
       end.

Definition history_append (key : string) (v : value) : prog unit :=
  history_append_eval key (ret v).

(** [self.id] *)
Definition get_id : prog Z := λ w, (Ok (id (self w)), w).

(** [self.id += 1] *)
Definition incr_id : prog unit :=
  λ w, (Ok tt,
        {| self := {| instance_generator := instance_generator (self w);
                      history := history (self w); id := id (self w) + 1 |};
           graph := graph w; trace := trace w |}).

(** [size] as it is appended when no default is applied. *)
Definition value_of_size (size : option Z) : value :=
  match size with
  | None => VNone
  | Some n => VInt n
  end.

(** [Simulator.__init__] *)
Definition __init__ (instance_generate : InstanceGenerator) : Simulator :=
  {| instance_generator := instance_generate;
     history := <["id" := []]> (<["val_index" := []]> (<["size" := []]>
                (<["valuation" := []]> (<["algo" := []]>
                (<["distortion" := []]> ∅)))));
     id := 1 |}.

(** [Simulator.serial_dictatorship_experiment] *)
Definition serial_dictatorship_experiment
    (val_index : Z) (val_type : string) (size agent_cap : option Z) : prog unit :=
  size ← default_size size;
  M ← on_G (λ G, call_serial_dictatorship G agent_cap)
           (λ G, serial_dictatorship solver G agent_cap);
  (i ← get_id; history_append "id" (VInt i));;
  incr_id;;
  history_append "val_index" (VInt val_index);;
  history_append "size" (VInt size);;
  history_append "valuation" (VStr val_type);;
  history_append "algo" (VStr "serial_dictatorship");;
  history_append_eval "distortion"
    (d ← on_G (λ G, call_calculate_modified_distortion G M "pareto")
              (λ G, calculate_modified_distortion solver G M "pareto");
     mret (VNum d)).

(** [Simulator.partial_max_matching_experiment] *)
Definition partial_max_matching_experiment
    (val_index : Z) (val_type : string) (m : Z) (size agent_cap : option Z)
  : prog unit :=
  size ← default_size size;
  M ← on_G (λ G, call_partial_max_matching G m agent_cap)
           (λ G, partial_max_matching solver G m agent_cap);
  H ← on_G (λ G, call_reassign_labels G M) (λ G, reassign_labels solver G M);
  M_0 ← on_local H (λ H, call_top_trading_cycles H None)
                 (λ H, top_trading_cycles solver H None);
  (i ← get_id; history_append "id" (VInt i));;
  incr_id;;
  history_append "val_index" (VInt val_index);;
  history_append "size" (VInt size);;
  history_append "valuation" (VStr val_type);;
  history_append "algo" (VStr ("partial_max_matching" +:+ "_" +:+ str_int m));;
  history_append_eval "distortion"
    (d ← on_G (λ G, call_calculate_distortion G M_0)
              (λ G, calculate_distortion solver G M_0);
     mret (VNum d)).

(** [Simulator.modified_max_matching_experiment]; [prio] is
    ['pareto'] when the caller omits it. *)
Definition modified_max_matching_experiment
    (val_index : Z) (val_type : string) (prio : string)
    (size agent_cap : option Z) : prog unit :=
  size ← default_size size;
  M_0 ← on_G (λ G, call_modified_max_matching G prio agent_cap)
             (λ G, modified_max_matching solver G prio agent_cap);
  (i ← get_id; history_append "id" (VInt i));;
  incr_id;;
  history_append "val_index" (VInt val_index);;
  history_append "size" (VInt size);;
  history_append "valuation" (VStr val_type);;
  history_append "algo" (VStr "modified_max_matching");;
  history_append_eval "distortion"
    (d ← on_G (λ G, call_calculate_modified_distortion G M_0 prio)
              (λ G, calculate_modified_distortion solver G M_0 prio);
     mret (VNum d)).

(** [Simulator.top_trading_cycles_experiment] *)
Definition top_trading_cycles_experiment
    (val_index : Z) (val_type : string) (size agent_cap : option Z) : prog unit :=
  size ← default_size size;
  M ← on_G (λ G, call_top_trading_cycles G agent_cap)
           (λ G, top_trading_cycles solver G agent_cap);
  (i ← get_id; history_append "id" (VInt i));;
  incr_id;;
  history_append "val_index" (VInt val_index);;
  history_append "size" (VInt size);;
  history_append "valuation" (VStr val_type);;
  history_append "algo" (VStr "ttc_matching");;
  history_append_eval "distortion"
    (d ← on_G (λ G, call_calculate_modified_distortion G M "pareto")
              (λ G, calculate_modified_distortion solver G M "pareto");
     mret (VNum d)).

(** [Simulator.epsilon_max_matching_experiment] *)
Definition epsilon_max_matching_experiment
    (val_index : Z) (val_type : string) (epsilon : Epsilon)
    (size agent_cap : option Z) : prog unit :=
  size ← default_size size;
  M ← on_G (λ G, call_epsilon_max_matching G epsilon None agent_cap)
           (λ G, epsilon_max_matching solver G epsilon None agent_cap);
  H ← on_G (λ G, call_reassign_labels G M) (λ G, reassign_labels solver G M);
  M_0 ← on_local H (λ H, call_top_trading_cycles H None)
                 (λ H, top_trading_cycles solver H None);
  (i ← get_id; history_append "id" (VInt i));;
  incr_id;;
  history_append "val_index" (VInt val_index);;
  history_append "size" (VInt size);;
  history_append "valuation" (VStr val_type);;
  history_append "algo" (VStr ("epsilon_max_matching" +:+ str_epsilon epsilon));;
  history_append_eval "distortion"
    (d ← on_G (λ G, call_calculate_distortion G M_0)
              (λ G, calculate_distortion solver G M_0);
     mret (VNum d)).

(** [Simulator.epsilon_max_matching_prio_experiment]; [prio] is
    ['pareto'] when the caller omits it. *)
Definition epsilon_max_matching_prio_experiment
    (val_index : Z) (val_type : string) (epsilon : Epsilon) (prio : string)
    (size agent_cap : option Z) : prog unit :=
  size ← default_size size;
  M ← on_G (λ G, call_epsilon_max_matching G epsilon (Some prio) agent_cap)
           (λ G, epsilon_max_matching solver G epsilon (Some prio) agent_cap);
  (i ← get_id; history_append "id" (VInt i));;
  incr_id;;
  history_append "val_index" (VInt val_index);;
  history_append "size" (VInt size);;
  history_append "valuation" (VStr val_type);;
  history_append "algo"
    (VStr (("epsilon_max_matching " +:+ prio) +:+ str_epsilon epsilon));;
  history_append_eval "distortion"
    (d ← on_G (λ G, call_calculate_modified_distortion G M prio)
              (λ G, calculate_modified_distortion solver G M prio);
     mret (VNum d)).

(** [Simulator.twothirds_max_matching_experiment]: no default is
    applied to [size]. *)
Definition twothirds_max_matching_experiment
    (val_index : Z) (val_type : string) (prio : string)
    (size agent_cap : option Z) : prog unit :=
  M ← on_G (λ G, call_twothirds_max_matching G prio agent_cap)
           (λ G, twothirds_max_matching solver G prio agent_cap);
  (i ← get_id; history_append "id" (VInt i));;
  incr_id;;
  history_append "val_index" (VInt val_index);;
  history_append "size" (value_of_size size);;
  history_append "valuation" (VStr val_type);;
  history_append "algo" (VStr ("twothirds_max_matching " +:+ prio));;
  history_append_eval "distortion"
    (d ← on_G (λ G, call_calculate_modified_distortion G M prio)
              (λ G, calculate_modified_distortion solver G M prio);
     mret (VNum d)).

(** [Simulator.updated_hybrid_max_matching_experiment] *)
Definition updated_hybrid_max_matching_experiment
    (val_index : Z) (val_type : string) (size agent_cap : option Z) : prog unit :=
  size ← default_size size;
  M ← on_G (λ G, call_updated_hybrid_max_matching G agent_cap)
           (λ G, updated_hybrid_max_matching solver G agent_cap);
  H ← on_G (λ G, call_reassign_labels G M) (λ G, reassign_labels solver G M);
  M_0 ← on_local H (λ H, call_top_trading_cycles H None)
                 (λ H, top_trading_cycles solver H None);
  (i ← get_id; history_append "id" (VInt i));;
  incr_id;;
  history_append "val_index" (VInt val_index);;
  history_append "size" (VInt size);;
  history_append "valuation" (VStr val_type);;
  history_append "algo" (VStr "updated_hybrid_max_matching");;
  history_append_eval "distortion"
    (d ← on_G (λ G, call_calculate_modified_distortion G M_0 "pareto")
              (λ G, calculate_modified_distortion solver G M_0 "pareto");
     mret (VNum d)).

(** *** Calls of the methods *)

(** The positional arguments shared by all methods. *)
Record common_args := mkArgs {
  arg_val_index : Z;
  arg_val_type : string;
  arg_G : Graph;
  arg_size : option Z;
  arg_agent_cap : option Z
}.

(** A call of one of the eight experiment methods. *)
Inductive experiment :=
| SerialDictatorship (a : common_args)
| PartialMaxMatching (a : common_args) (m : Z)
| ModifiedMaxMatching (a : common_args) (prio : string)
| TopTradingCycles (a : common_args)
| EpsilonMaxMatching (a : common_args) (epsilon : Epsilon)
| EpsilonMaxMatchingPrio (a : common_args) (epsilon : Epsilon) (prio : string)
| TwothirdsMaxMatching (a : common_args) (prio : string)
| UpdatedHybridMaxMatching (a : common_args).

Definition args_of (e : experiment) : common_args :=
  match e with
  | SerialDictatorship a | PartialMaxMatching a _ | ModifiedMaxMatching a _
  | TopTradingCycles a | EpsilonMaxMatching a _ | EpsilonMaxMatchingPrio a _ _
  | TwothirdsMaxMatching a _ | UpdatedHybridMaxMatching a => a
  end.

Definition body (e : experiment) : prog unit :=
  match e with
  | SerialDictatorship a =>
      serial_dictatorship_experiment
        (arg_val_index a) (arg_val_type a) (arg_size a) (arg_agent_cap a)
  | PartialMaxMatching a m =>
      partial_max_matching_experiment
        (arg_val_index a) (arg_val_type a) m (arg_size a) (arg_agent_cap a)
  | ModifiedMaxMatching a prio =>
      modified_max_matching_experiment
        (arg_val_index a) (arg_val_type a) prio (arg_size a) (arg_agent_cap a)
  | TopTradingCycles a =>
      top_trading_cycles_experiment
        (arg_val_index a) (arg_val_type a) (arg_size a) (arg_agent_cap a)
  | EpsilonMaxMatching a epsilon =>
      epsilon_max_matching_experiment
        (arg_val_index a) (arg_val_type a) epsilon (arg_size a) (arg_agent_cap a)
  | EpsilonMaxMatchingPrio a epsilon prio =>
      epsilon_max_matching_prio_experiment
        (arg_val_index a) (arg_val_type a) epsilon prio (arg_size a)
        (arg_agent_cap a)
  | TwothirdsMaxMatching a prio =>
      twothirds_max_matching_experiment
        (arg_val_index a) (arg_val_type a) prio (arg_size a) (arg_agent_cap a)
  | UpdatedHybridMaxMatching a =>
      updated_hybrid_max_matching_experiment
        (arg_val_index a) (arg_val_type a) (arg_size a) (arg_agent_cap a)
  end.

(** Running one call on a simulator: the outcome and the world it
    leaves (simulator, graph object, solver calls made). *)
Definition run (e : experiment) (s : Simulator) : result unit * world :=
  body e {| self := s; graph := arg_G (args_of e); trace := [] |}.

(** Running calls one after the other, as the driver does; an
    exception ends the run. *)
Fixpoint run_all (es : list experiment) (s : Simulator)
  : result unit * Simulator :=
  match es with
  | [] => (Ok tt, s)
  | e :: es' =>
      match run e s with
      | (Ok _, w) => run_all es' (self w)
      | (Raise x, w) => (Raise x, self w)
      end
  end.

(** The keys of [history]. *)
Definition history_keys : list string :=
  ["id"; "val_index"; "size"; "valuation"; "algo"; "distortion"].

(** *** The row that a method writes *)

(** The seven statements that end every method, from the append to
    [history['id']] to the append of the score computed by the
    solver call [f] (recorded in the trace as [ev]). *)
Definition write_row (val_index : Z) (size : value) (val_type algo : string)
    (ev : Graph → solver_call) (f : Graph → Graph * result Distortion)
  : prog unit :=
  (i ← get_id; history_append "id" (VInt i));;
  incr_id;;
  history_append "val_index" (VInt val_index);;
  history_append "size" size;;
  history_append "valuation" (VStr val_type);;
  history_append "algo" (VStr algo);;
  history_append_eval "distortion" (d ← on_G ev f; mret (VNum d)).

(** [key] of [h'] is [key] of [h] with [v] appended. *)
Definition appended (h h' : gmap string (list value)) (key : string) (v : value)
  : Prop :=
  ∃ l, h !! key = Some l ∧ h' !! key = Some (l ++ [v]).

(** The size and the algorithm name that a call appends. *)
Definition recorded_size (e : experiment) : value :=
  match e with
  | TwothirdsMaxMatching a _ => value_of_size (arg_size a)
  | _ =>
      VInt (default (floordiv (len (nodes (arg_G (args_of e)))) 2)
                    (arg_size (args_of e)))
  end.

Definition recorded_algo (e : experiment) : string :=
  match e with
  | SerialDictatorship _ => "serial_dictatorship"
  | PartialMaxMatching _ m => "partial_max_matching_" +:+ str_int m
  | ModifiedMaxMatching _ _ => "modified_max_matching"
  | TopTradingCycles _ => "ttc_matching"
  | EpsilonMaxMatching _ epsilon => "epsilon_max_matching" +:+ str_epsilon epsilon
  | EpsilonMaxMatchingPrio _ epsilon prio =>
      "epsilon_max_matching " +:+ prio +:+ str_epsilon epsilon
  | TwothirdsMaxMatching _ prio => "twothirds_max_matching " +:+ prio
  | UpdatedHybridMaxMatching _ => "updated_hybrid_max_matching"
  end.

(** The solver functions leave the graph object as they found it. *)
Record read_only : Prop := {
  ro_serial_dictatorship G cap : (serial_dictatorship solver G cap).1 = G;
  ro_partial_max_matching G m cap : (partial_max_matching solver G m cap).1 = G;
  ro_modified_max_matching G prio cap :
    (modified_max_matching solver G prio cap).1 = G;
  ro_top_trading_cycles G cap : (top_trading_cycles solver G cap).1 = G;
  ro_epsilon_max_matching G eps prio cap :
    (epsilon_max_matching solver G eps prio cap).1 = G;
  ro_twothirds_max_matching G prio cap :
    (twothirds_max_matching solver G prio cap).1 = G;
  ro_updated_hybrid_max_matching G cap :
    (updated_hybrid_max_matching solver G cap).1 = G;
  ro_reassign_labels G M : (reassign_labels solver G M).1 = G;
  ro_calculate_distortion G M : (calculate_distortion solver G M).1 = G;
  ro_calculate_modified_distortion G M prio :
    (calculate_modified_distortion solver G M prio).1 = G
}.

(** The solver functions never raise. *)
Record never_raises : Prop := {
  nr_serial_dictatorship G cap : ∃ M, (serial_dictatorship solver G cap).2 = Ok M;
  nr_partial_max_matching G m cap :
    ∃ M, (partial_max_matching solver G m cap).2 = Ok M;
  nr_modified_max_matching G prio cap :
    ∃ M, (modified_max_matching solver G prio cap).2 = Ok M;
  nr_top_trading_cycles G cap : ∃ M, (top_trading_cycles solver G cap).2 = Ok M;
  nr_epsilon_max_matching G eps prio cap :
    ∃ M, (epsilon_max_matching solver G eps prio cap).2 = Ok M;
  nr_twothirds_max_matching G prio cap :
    ∃ M, (twothirds_max_matching solver G prio cap).2 = Ok M;
  nr_updated_hybrid_max_matching G cap :
    ∃ M, (updated_hybrid_max_matching solver G cap).2 = Ok M;
  nr_reassign_labels G M : ∃ H, (reassign_labels solver G M).2 = Ok H;
  nr_calculate_distortion G M : ∃ d, (calculate_distortion solver G M).2 = Ok d;
  nr_calculate_modified_distortion G M prio :
    ∃ d, (calculate_modified_distortion solver G M prio).2 = Ok d
}.

(** *** Vocabulary of the statements *)

(** The solver call that a trace entry stands for, evaluated. *)
Definition stage_result (c : solver_call) : option (Graph * result Matching) :=
  match c with
  | call_serial_dictatorship G cap => Some (serial_dictatorship solver G cap)
  | call_partial_max_matching G m cap => Some (partial_max_matching solver G m cap)
  | call_modified_max_matching G prio cap =>
      Some (modified_max_matching solver G prio cap)
  | call_top_trading_cycles G cap => Some (top_trading_cycles solver G cap)
  | call_epsilon_max_matching G eps prio cap =>
      Some (epsilon_max_matching solver G eps prio cap)
  | call_twothirds_max_matching G prio cap =>
      Some (twothirds_max_matching solver G prio cap)
  | call_updated_hybrid_max_matching G cap =>
      Some (updated_hybrid_max_matching solver G cap)
  | _ => None
  end.

Definition score_result (c : solver_call) : option (Graph * result Distortion) :=
  match c with
  | call_calculate_distortion G M => Some (calculate_distortion solver G M)
  | call_calculate_modified_distortion G M prio =>
      Some (calculate_modified_distortion solver G M prio)
  | _ => None
  end.

(** Calls of [partial_max_matching], and of [epsilon_max_matching]
    without [prio]. *)
Definition is_coarse_first_stage (c : solver_call) : bool :=
  match c with
  | call_partial_max_matching _ _ _ => true
  | call_epsilon_max_matching _ _ None _ => true
  | _ => false
  end.

(** *** The stages of a method *)

(** All six lists are there. *)
Definition has_keys (s : Simulator) : Prop :=
  Forall (λ key, is_Some (history s !! key)) history_keys.

(** The first of the six keys that [s] lacks. *)
Definition first_missing_key (s : Simulator) (key : string) : Prop :=
  ∃ before after,
    history_keys = before ++ key :: after ∧
    Forall (λ k, is_Some (history s !! k)) before ∧
    history s !! key = None.

(** The mechanism that opens each method: the call as it appears in the
    trace, and the call evaluated. *)
Definition mechanism_call (e : experiment) : solver_call :=
  let G := arg_G (args_of e) in
  let agent_cap := arg_agent_cap (args_of e) in
  match e with
  | SerialDictatorship _ => call_serial_dictatorship G agent_cap
  | PartialMaxMatching _ m => call_partial_max_matching G m agent_cap
  | ModifiedMaxMatching _ prio => call_modified_max_matching G prio agent_cap
  | TopTradingCycles _ => call_top_trading_cycles G agent_cap
  | EpsilonMaxMatching _ epsilon =>
      call_epsilon_max_matching G epsilon None agent_cap
  | EpsilonMaxMatchingPrio _ epsilon prio =>
      call_epsilon_max_matching G epsilon (Some prio) agent_cap
  | TwothirdsMaxMatching _ prio => call_twothirds_max_matching G prio agent_cap
  | UpdatedHybridMaxMatching _ => call_updated_hybrid_max_matching G agent_cap
  end.

Definition mechanism (e : experiment) : Graph * result Matching :=
  let G := arg_G (args_of e) in
  let agent_cap := arg_agent_cap (args_of e) in
  match e with
  | SerialDictatorship _ => serial_dictatorship solver G agent_cap
  | PartialMaxMatching _ m => partial_max_matching solver G m agent_cap
  | ModifiedMaxMatching _ prio => modified_max_matching solver G prio agent_cap
  | TopTradingCycles _ => top_trading_cycles solver G agent_cap
  | EpsilonMaxMatching _ epsilon =>
      epsilon_max_matching solver G epsilon None agent_cap
  | EpsilonMaxMatchingPrio _ epsilon prio =>
      epsilon_max_matching solver G epsilon (Some prio) agent_cap
  | TwothirdsMaxMatching _ prio => twothirds_max_matching solver G prio agent_cap
  | UpdatedHybridMaxMatching _ => updated_hybrid_max_matching solver G agent_cap
  end.

(** The methods with the [reassign_labels] and [top_trading_cycles]
    pass. *)
Definition has_second_pass (e : experiment) : bool :=
  match e with
  | PartialMaxMatching _ _ | EpsilonMaxMatching _ _
  | UpdatedHybridMaxMatching _ => true
  | _ => false
  end.

(** The [prio] that a method hands to [calculate_modified_distortion];
    [None] for the methods that score with [calculate_distortion]. *)
Definition scoring_prio (e : experiment) : option string :=
  match e with
  | PartialMaxMatching _ _ | EpsilonMaxMatching _ _ => None
  | ModifiedMaxMatching _ prio | EpsilonMaxMatchingPrio _ _ prio
  | TwothirdsMaxMatching _ prio => Some prio
  | SerialDictatorship _ | TopTradingCycles _
  | UpdatedHybridMaxMatching _ => Some "pareto"
  end.

Definition scoring_call (e : experiment) (G : Graph) (M : Matching) : solver_call :=
  match scoring_prio e with
  | None => call_calculate_distortion G M
  | Some prio => call_calculate_modified_distortion G M prio
  end.

Definition scorer (e : experiment) (G : Graph) (M : Matching)
  : Graph * result Distortion :=
  match scoring_prio e with
  | None => calculate_distortion solver G M
  | Some prio => calculate_modified_distortion solver G M prio
  end.

(** The solver calls of a method up to the matching that it scores:
    the calls made, the state of the graph object, and the matching or
    the exception. *)
Definition first_stages (e : experiment)
  : list solver_call * Graph * result Matching :=
  let out1 := mechanism e in
  match out1.2 with
  | Raise x => ([mechanism_call e], out1.1, Raise x)
  | Ok M =>
      if has_second_pass e then
        let out2 := reassign_labels solver out1.1 M in
        match out2.2 with
        | Raise x =>
            ([mechanism_call e; call_reassign_labels out1.1 M], out2.1, Raise x)
        | Ok H =>
            ([mechanism_call e; call_reassign_labels out1.1 M;
              call_top_trading_cycles H None],
             out2.1, (top_trading_cycles solver H None).2)
        end
      else ([mechanism_call e], out1.1, Ok M)
  end.

(** *** The driver

    The loop of the main block over the instances of one size.  The
    numbers [1] and [0.1] that it passes as [epsilon] are [one] and
    [tenth]; [size] and [agent_cap] are never passed.  The five calls
    of one instance receive the same graph object. *)

Definition driver_args (val_index : Z) (val_type : string) (G : Graph)
  : common_args :=
  {| arg_val_index := val_index; arg_val_type := val_type; arg_G := G;
     arg_size := None; arg_agent_cap := None |}.

(** One method call of the loop body, on the simulator and the graph
    object as the calls before it left them. *)
Definition driver_call (mk : common_args → experiment)
    (val_index : Z) (val_type : string) (st : Simulator * Graph)
  : result unit * (Simulator * Graph) :=
  let out := run (mk (driver_args val_index val_type st.2)) st.1 in
  (out.1, (self out.2, graph out.2)).

Definition and_then
    (p q : Simulator * Graph → result unit * (Simulator * Graph))
  : Simulator * Graph → result unit * (Simulator * Graph) :=
  λ st, match p st with
        | (Ok _, st') => q st'
        | (Raise x, st') => (Raise x, st')
        end.

(** The body of the loop, up to [val_index += 1]. *)
Definition driver_instance (one tenth : Epsilon)
    (val_index : Z) (val_type : string)
  : Simulator * Graph → result unit * (Simulator * Graph) :=
  and_then (driver_call SerialDictatorship val_index val_type)
  (and_then (driver_call TopTradingCycles val_index val_type)
  (and_then (driver_call (λ a, EpsilonMaxMatchingPrio a one "pareto")
               val_index val_type)
  (and_then (driver_call (λ a, EpsilonMaxMatchingPrio a tenth "pareto")
               val_index val_type)
            (driver_call UpdatedHybridMaxMatching val_index val_type)))).

(** [for i in range(len(G_list)): ...]; the result carries the
    simulator and [val_index] as the loop leaves them. *)
Fixpoint driver_loop (one tenth : Epsilon) (val_type : string)
    (G_list : list Graph) (val_index : Z) (s : Simulator)
  : result unit * Simulator * Z :=
  match G_list with
  | [] => (Ok tt, s, val_index)
  | G :: G_list' =>
      match driver_instance one tenth val_index val_type (s, G) with
      | (Ok _, (s', _)) => driver_loop one tenth val_type G_list' (val_index + 1) s'
      | (Raise x, (s', _)) => (Raise x, s', val_index)
      end
  end.

(** The names that one pass of the loop appends to [history['algo']]. *)
Definition driver_algos (one tenth : Epsilon) : list string :=
  ["serial_dictatorship"; "ttc_matching";
   "epsilon_max_matching " +:+ "pareto" +:+ str_epsilon one;
   "epsilon_max_matching " +:+ "pareto" +:+ str_epsilon tenth;
   "updated_hybrid_max_matching"].

(** The values that the loop appends to [history['val_index']]: five
    per instance. *)
Fixpoint driver_val_indices (G_list : list Graph) (val_index : Z) : list Z :=
  match G_list with
  | [] => []
  | _ :: G_list' =>
      replicate 5 val_index ++ driver_val_indices G_list' (val_index + 1)
  end.

End Simulator.

(** ** The solver core, from its specification

    [solver.py] is not part of the sources at hand.  The definitions of
    this module follow the specification of the solver core: the data
    model (§3), the mechanisms of §4.5 and §4.6, the distortion engine
    (§4.9) and the error taxonomy (§7). *)

Module SolverCore.

(** Modelled from the spec: the error taxonomy of §7, raised by the
    functions of the absent [solver] module. *)
Definition InvalidGraphError : exn := SolverError "InvalidGraphError".
Definition InvalidConfigurationError : exn :=
  SolverError "InvalidConfigurationError".
Definition NoFeasibleMatchingError : exn := SolverError "NoFeasibleMatchingError".

(** Modelled from the spec: the Graph of §3, integer node labels and a
    weight for every agent-item pair that is an edge. *)
Record Graph := mkGraph {
  nodes : list Z;
  edges : gmap (Z * Z) Q
}.

(** Modelled from the spec: a Matching (§3) is a set of agent-item
    pairs. *)
Definition Matching : Type := list (Z * Z).

(** Modelled from the spec: the priority vector of §3 as the closed
    enumeration that §9 asks for. *)
Inductive Prio := pareto | rank_maximal | max_cardinality_rank_maximal | fair.

(** Modelled from the spec: non-negative weights (§3). *)
Definition nonneg_weights (G : Graph) : bool :=
  forallb (λ e, Qle_bool 0 e.2) (map_to_list (edges G)).

(** Modelled from the spec: the default [agent_cap], half the node
    count (§3). *)
Definition default_agent_cap (G : Graph) : Z := len (nodes G) `div` 2.

(** Modelled from the spec: an agent [a] and an item [i] have
    [a ≤ agent_cap < i] (§3). *)
Definition in_partition (cap : Z) (p : Z * Z) : bool :=
  bool_decide (p.1 ≤ cap) && bool_decide (cap < p.2).

(** Modelled from the spec: [agent_cap] lies in the range of the node
    labels (§7). *)
Definition cap_in_range (G : Graph) (cap : Z) : bool :=
  existsb (λ v, bool_decide (v ≤ cap)) (nodes G)
  && existsb (λ v, bool_decide (cap ≤ v)) (nodes G).

(** Modelled from the spec: the eager checks of §7 on the graph and on
    [agent_cap]; the result is the [agent_cap] in force. *)
Definition check_instance (G : Graph) (agent_cap : option Z) : result Z :=
  let cap := default (default_agent_cap G) agent_cap in
  if bool_decide (nodes G = []) then Raise InvalidGraphError
  else if negb (cap_in_range G cap) then Raise InvalidConfigurationError
  else if forallb
            (λ p, bool_decide (p.1 ∈ nodes G) && bool_decide (p.2 ∈ nodes G)
                  && in_partition cap p)
            (map_to_list (edges G)).*1
       then Ok cap
       else Raise InvalidGraphError.

(** Modelled from the spec: the weight of a pair, and the welfare of a
    matching, the total weight of its pairs (§4.9). *)
Definition weight (G : Graph) (p : Z * Z) : Q := default 0%Q (edges G !! p).

Definition welfare (G : Graph) (M : Matching) : Q :=
  foldr (λ p acc, weight G p + acc)%Q 0%Q M.

(** Modelled from the spec: the invariants of a Matching (§3): each
    agent and each item in at most one pair, every pair an edge. *)
Definition is_matching (M : Matching) : Prop := NoDup M.*1 ∧ NoDup M.*2.

Definition feasible (G : Graph) (M : Matching) : Prop :=
  is_matching M ∧ Forall (λ p, is_Some (edges G !! p)) M.

#[global] Instance is_matching_dec M : Decision (is_matching M).
Proof. unfold is_matching. apply _. Defined.

#[global] Instance feasible_dec G M : Decision (feasible G M).
Proof. unfold feasible. apply _. Defined.

(** Modelled from the spec: all feasible matchings of a graph, as the
    sublists of its edge list that are matchings. *)
Fixpoint sublists {A} (l : list A) : list (list A) :=
  match l with
  | [] => [[]]
  | x :: l' => sublists l' ++ ((x ::.) <$> sublists l')
  end.

Definition all_matchings (G : Graph) : list Matching :=
  filter is_matching (sublists (map_to_list (edges G)).*1).

(** Modelled from the spec: [OPT(G)], the maximum total weight over all
    feasible matchings (§4.9); the empty matching is one of them. *)
Definition OPT (G : Graph) : Q := foldr Qmax 0%Q (welfare G <$> all_matchings G).

(** Modelled from the spec: the value of a distortion function, a ratio
    or the sentinel for a matching of welfare 0 (§4.9). *)
Inductive distortion :=
| Ratio (q : Q)
| Unbounded.

Definition at_least_one (d : distortion) : Prop :=
  match d with
  | Ratio q => (1 <= q)%Q
  | Unbounded => True
  end.

Definition is_one (d : distortion) : Prop :=
  match d with
  | Ratio q => (q == 1)%Q
  | Unbounded => False
  end.

(** Modelled from the spec: [calculate_distortion] (§4.9), which fails
    when [M] is infeasible for [G] or [OPT(G) = 0] (§7), reports a
    matching of welfare 0 as unbounded, and otherwise returns
    [OPT(G) / welfare(G, M)]. *)
Definition calculate_distortion (G : Graph) (M : Matching) : result distortion :=
  if decide (feasible G M) then
    if Qeq_bool (OPT G) 0 then Raise InvalidGraphError
    else if Qeq_bool (welfare G M) 0 then Ok Unbounded
    else Ok (Ratio (OPT G / welfare G M))
  else Raise NoFeasibleMatchingError.

(** Modelled from the spec: the preference order of an agent, by
    descending weight, ties broken by item label (§4.1); [rank] is the
    position of the item of a pair in the order of its agent. *)
Definition neighbours (G : Graph) (a : Z) : list (Z * Q) :=
  (λ e, (e.1.2, e.2)) <$> filter (λ e, e.1.1 = a) (map_to_list (edges G)).

Definition rank (G : Graph) (p : Z * Z) : nat :=
  S (length (filter
       (λ jw, negb (Qle_bool jw.2 (weight G p))
              || (Qeq_bool jw.2 (weight G p) && bool_decide (jw.1 < p.2)))
       (neighbours G p.1))).

(** Modelled from the spec: the utility of an agent in a matching, 0
    when unmatched (§4.9). *)
Definition utility (G : Graph) (M : Matching) (a : Z) : Q :=
  welfare G (filter (λ p, p.1 = a) M).

Definition agents (G : Graph) (cap : Z) : list Z :=
  filter (λ v, v ≤ cap) (nodes G).

(** Modelled from the spec: the four criteria of §4.5.  [better] says
    when [M'] is to be preferred to [M]. *)
Definition dominates (G : Graph) (cap : Z) (M' M : Matching) : bool :=
  forallb (λ a, Qle_bool (utility G M a) (utility G M' a)) (agents G cap)
  && existsb (λ a, negb (Qle_bool (utility G M' a) (utility G M a)))
       (agents G cap).

Definition rank_profile (G : Graph) (M : Matching) : list nat :=
  (λ k, length (filter (λ p, rank G p = k) M)) <$> seq 1 (length (nodes G)).

Fixpoint lex_gt (l1 l2 : list nat) : bool :=
  match l1, l2 with
  | x :: l1', y :: l2' => (y <? x)%nat || ((x =? y)%nat && lex_gt l1' l2')
  | _, _ => false
  end.

Definition max_rank (G : Graph) (M : Matching) : nat :=
  foldr Nat.max 0%nat (rank G <$> M).

Definition better (G : Graph) (cap : Z) (prio : Prio) (M' M : Matching) : bool :=
  match prio with
  | pareto => dominates G cap M' M
  | rank_maximal => lex_gt (rank_profile G M') (rank_profile G M)
  | max_cardinality_rank_maximal =>
      (length M <? length M')%nat
      || ((length M =? length M')%nat
          && lex_gt (rank_profile G M') (rank_profile G M))
  | fair => (max_rank G M' <? max_rank G M)%nat
  end.

(** Modelled from the spec: the deterministic choice among the
    candidates (§4.5): they are scanned in order, and the one in hand
    is kept unless the next is better. *)
Definition select (better : Matching → Matching → bool) (cands : list Matching)
  : option Matching :=
  match cands with
  | [] => None
  | M :: Ms => Some (foldl (λ best M', if better M' best then M' else best) M Ms)
  end.

(** Modelled from the spec: [modified_max_matching] (§4.5), a
    maximum-weight matching chosen by [prio] among all weight-optimal
    ones. *)
Definition modified_max_matching (G : Graph) (prio : Prio) (agent_cap : option Z)
  : result Matching :=
  match check_instance G agent_cap with
  | Raise e => Raise e
  | Ok cap =>
      match select (better G cap prio)
              (filter (λ M, Qeq_bool (welfare G M) (OPT G)) (all_matchings G)) with
      | None => Raise NoFeasibleMatchingError
      | Some M => Ok M
      end
  end.

(** Modelled from the spec: [epsilon_max_matching] (§4.6), chosen by
    [prio] among the matchings of weight at least
    [(1 - epsilon) * OPT(G)]; [epsilon] outside (0,1] is a configuration
    error (§7). *)
Definition epsilon_max_matching
    (G : Graph) (epsilon : Q) (prio : Prio) (agent_cap : option Z)
  : result Matching :=
  if negb (negb (Qle_bool epsilon 0) && Qle_bool epsilon 1)
  then Raise InvalidConfigurationError
  else
    match check_instance G agent_cap with
    | Raise e => Raise e
    | Ok cap =>
        match select (better G cap prio)
                (filter (λ M, Qle_bool ((1 - epsilon) * OPT G) (welfare G M))
                   (all_matchings G)) with
        | None => Raise NoFeasibleMatchingError
        | Some M => Ok M
        end
    end.

(** The example instance of §8, with agents 1, 2 and items 3, 4. *)
Definition example_graph : Graph :=
  {| nodes := [1; 2; 3; 4];
     edges := <[(1, 3) := 3%Q]> (<[(1, 4) := 1%Q]> (<[(2, 3) := 2%Q]>
              (<[(2, 4) := 4%Q]> ∅))) |}.

(** Its optimal matching. *)
Definition example_matching : Matching := [(1, 3); (2, 4)].

(** A graph without edges (§9). *)
Definition edgeless_graph : Graph := {| nodes := [1; 2]; edges := ∅ |}.

End SolverCore.

(** ** A solver to run the methods on

    A small deterministic solver that leaves its graph alone and never
    raises; a graph is its list of node labels.  It stands in for
    [solver.py] where a statement is exercised on a concrete run. *)

Definition toy_pairs (G : list Z) : list (Z * Z) :=
  let n := (length G / 2)%nat in zip (take n G) (drop n G).

Definition toy_score (G : list Z) (M : list (Z * Z)) : Q :=
  Z.of_nat (length (toy_pairs G)) # Pos.of_nat (length M).

Definition toy_solver : @Solver (list Z) (list (Z * Z)) Q Z :=
  {| serial_dictatorship G _ := (G, Ok (toy_pairs G));
     partial_max_matching G _ _ := (G, Ok (take 1 (toy_pairs G)));
     modified_max_matching G _ _ := (G, Ok (toy_pairs G));
     top_trading_cycles G _ := (G, Ok (toy_pairs G));
     epsilon_max_matching G _ _ _ := (G, Ok (take 1 (toy_pairs G)));
     twothirds_max_matching G _ _ := (G, Ok (toy_pairs G));
     updated_hybrid_max_matching G _ := (G, Ok (take 1 (toy_pairs G)));
     reassign_labels G M := (G, Ok (filter (λ v, v ∉ M.*1 ++ M.*2) G));
     calculate_distortion G M := (G, Ok (toy_score G M));
     calculate_modified_distortion G M _ := (G, Ok (toy_score G M)) |}.

(** The same solver, except that the scoring functions raise. *)
Definition toy_solver_score_raises : @Solver (list Z) (list (Z * Z)) Q Z :=
  {| serial_dictatorship G _ := (G, Ok (toy_pairs G));
     partial_max_matching G _ _ := (G, Ok (take 1 (toy_pairs G)));
     modified_max_matching G _ _ := (G, Ok (toy_pairs G));
     top_trading_cycles G _ := (G, Ok (toy_pairs G));
     epsilon_max_matching G _ _ _ := (G, Ok (take 1 (toy_pairs G)));
     twothirds_max_matching G _ _ := (G, Ok (toy_pairs G));
     updated_hybrid_max_matching G _ := (G, Ok (take 1 (toy_pairs G)));
     reassign_labels G M := (G, Ok (filter (λ v, v ∉ M.*1 ++ M.*2) G));
     calculate_distortion G M := (G, Raise (SolverError "ZeroDivisionError"));
     calculate_modified_distortion G M _ :=
       (G, Raise (SolverError "ZeroDivisionError")) |}.

Definition toy_args (size : option Z) : @common_args (list Z) :=
  {| arg_val_index := 7; arg_val_type := "theta1unitrange";
     arg_G := [1; 2; 3; 4]; arg_size := size; arg_agent_cap := None |}.

Definition toy_simulator : @Simulator Q unit := __init__ tt.

Definition toy_run (e : experiment) : result unit * world :=
  run (λ G, G) str_int toy_solver e toy_simulator.

Definition toy_world (e : experiment) : world := (toy_run e).2.

(** The calls of one round of the driver. *)
Definition toy_round : list experiment :=
  [SerialDictatorship (toy_args None);
   TopTradingCycles (toy_args None);
   EpsilonMaxMatchingPrio (toy_args None) 1 "pareto";
   UpdatedHybridMaxMatching (toy_args None)].

Definition toy_final : Simulator :=
  (run_all (λ G, G) str_int toy_solver toy_round toy_simulator).2.

(** ** The options and file names of the main block *)

(** The values that [--scale] and [--norm] accept, and the defaults
    that [argparse] supplies when an option is omitted. *)
Definition scale_choices : list string := ["0.2"; "1"; "5"].
Definition scale_default : string := "1.".
Definition norm_choices : list string := ["range"; "sum"].
Definition norm_default : string := "range".

(** [for size in [5, 10, 20, 50, 100]] *)
Definition driver_sizes : list Z := [5; 10; 20; 50; 100].

(** [f"theta{args.scale}unit{args.norm}"] *)
Definition driver_val_type (scale norm : string) : string :=
  "theta" +:+ scale +:+ "unit" +:+ norm.

(** [f"rdata/ord_n{size}_theta{args.scale}.txt"] *)
Definition driver_filename (size : Z) (scale : string) : string :=
  "rdata/ord_n" +:+ str_int size +:+ "_theta" +:+ scale +:+ ".txt".

(** [val_type + ".csv"] and [val_type + "instances.csv"], the names of
    the two files written under [data_dir]. *)
Definition results_csv (val_type : string) : string := val_type +:+ ".csv".
Definition instances_csv (val_type : string) : string :=
  val_type +:+ "instances.csv".

(** ** Solvers that fail on request

    [toy_solver], with mechanisms that raise when [mechanism_fails] and
    scoring functions that raise when [scoring_fails]; [epsilon] is
    given by its [str]. *)

Definition toy_result {A} (fails : bool) (name : string) (a : A) : result A :=
  if fails then Raise (SolverError name) else Ok a.

Definition toy_solver_with (mechanism_fails scoring_fails : bool)
  : @Solver (list Z) (list (Z * Z)) Q string :=
  {| serial_dictatorship G _ :=
       (G, toy_result mechanism_fails "InvalidGraphError" (toy_pairs G));
     partial_max_matching G _ _ :=
       (G, toy_result mechanism_fails "InvalidGraphError" (take 1 (toy_pairs G)));
     modified_max_matching G _ _ :=
       (G, toy_result mechanism_fails "InvalidGraphError" (toy_pairs G));
     top_trading_cycles G _ :=
       (G, toy_result mechanism_fails "InvalidGraphError" (toy_pairs G));
     epsilon_max_matching G _ _ _ :=
       (G, toy_result mechanism_fails "InvalidGraphError" (take 1 (toy_pairs G)));
     twothirds_max_matching G _ _ :=
       (G, toy_result mechanism_fails "InvalidGraphError" (toy_pairs G));
     updated_hybrid_max_matching G _ :=
       (G, toy_result mechanism_fails "InvalidGraphError" (take 1 (toy_pairs G)));
     reassign_labels G M := (G, Ok (filter (λ v, v ∉ M.*1 ++ M.*2) G));
     calculate_distortion G M :=
       (G, toy_result scoring_fails "ZeroDivisionError" (toy_score G M));
     calculate_modified_distortion G M _ :=
       (G, toy_result scoring_fails "ZeroDivisionError" (toy_score G M)) |}.

Definition toy_args_on (G : list Z) (size agent_cap : option Z)
  : @common_args (list Z) :=
  {| arg_val_index := 7; arg_val_type := "theta1unitrange";
     arg_G := G; arg_size := size; arg_agent_cap := agent_cap |}.

(** A simulator whose [history] has lost its ['size'] list. *)
Definition toy_simulator_without_size : @Simulator Q unit :=
  {| instance_generator := tt;
     history := delete "size" (history toy_simulator);
     id := 1 |}.

Definition toy_run_with (mechanism_fails scoring_fails : bool)
    (e : experiment) (s : @Simulator Q unit) : result unit * world :=
  run (λ G, G) (λ epsilon, epsilon)
    (toy_solver_with mechanism_fails scoring_fails) e s.

(** A call whose mechanism raises, one whose scoring function raises,
    and one on a simulator without its ['size'] list. *)
Definition toy_partial : @experiment (list Z) string :=
  PartialMaxMatching (toy_args_on [1; 2; 3; 4] None (Some 2)) 3.

Definition toy_failed_mechanism : result unit * world :=
  toy_run_with true false toy_partial toy_simulator.

Definition toy_failed_scoring : result unit * world :=
  toy_run_with false true toy_partial toy_simulator.

Definition toy_missing_size : result unit * world :=
  toy_run_with false false toy_partial toy_simulator_without_size.

(** The driver's loop over two instances, from [val_index = 100]. *)
Definition toy_driver_loop : result unit * @Simulator Q unit * Z :=
  driver_loop (λ G, G) (λ epsilon, epsilon) (toy_solver_with false false)
    "1" "0.1" "theta1unitrange" [[1; 2; 3; 4]; [1; 2]] 100 toy_simulator.


(** * Statements and proofs *)

(** ** The experiment methods *)

Section SimulatorFacts.

Context {Graph Matching Distortion Epsilon InstanceGenerator : Type}.
Variable nodes : Graph → list Z.
Variable str_epsilon : Epsilon → string.
Variable solver : @Solver Graph Matching Distortion Epsilon.

#[local] Abbreviation Simulator := (@Simulator Distortion InstanceGenerator).
#[local] Abbreviation world :=
  (@world Graph Matching Distortion Epsilon InstanceGenerator).
#[local] Abbreviation value := (@value Distortion).
#[local] Abbreviation experiment := (@experiment Graph Epsilon).
#[local] Abbreviation solver_call := (@solver_call Graph Matching Epsilon).
#[local] Abbreviation default_size := (default_size (InstanceGenerator := InstanceGenerator) nodes).
#[local] Abbreviation serial_dictatorship_experiment :=
  (serial_dictatorship_experiment (InstanceGenerator := InstanceGenerator) nodes solver).
#[local] Abbreviation partial_max_matching_experiment :=
  (partial_max_matching_experiment (InstanceGenerator := InstanceGenerator) nodes solver).
#[local] Abbreviation modified_max_matching_experiment :=
  (modified_max_matching_experiment (InstanceGenerator := InstanceGenerator) nodes solver).
#[local] Abbreviation top_trading_cycles_experiment :=
  (top_trading_cycles_experiment (InstanceGenerator := InstanceGenerator) nodes solver).
#[local] Abbreviation epsilon_max_matching_experiment :=
  (epsilon_max_matching_experiment (InstanceGenerator := InstanceGenerator) nodes str_epsilon solver).
#[local] Abbreviation epsilon_max_matching_prio_experiment :=
  (epsilon_max_matching_prio_experiment (InstanceGenerator := InstanceGenerator) nodes str_epsilon solver).
#[local] Abbreviation twothirds_max_matching_experiment :=
  (twothirds_max_matching_experiment (InstanceGenerator := InstanceGenerator) solver).
#[local] Abbreviation updated_hybrid_max_matching_experiment :=
  (updated_hybrid_max_matching_experiment (InstanceGenerator := InstanceGenerator) nodes solver).
#[local] Abbreviation run := (run (InstanceGenerator := InstanceGenerator) nodes str_epsilon solver).
#[local] Abbreviation run_all := (run_all (InstanceGenerator := InstanceGenerator) nodes str_epsilon solver).
#[local] Abbreviation recorded_size := (recorded_size nodes).
#[local] Abbreviation recorded_algo := (recorded_algo str_epsilon).
#[local] Abbreviation read_only := (read_only solver).
#[local] Abbreviation never_raises := (never_raises solver).
#[local] Abbreviation stage_result := (stage_result solver).
#[local] Abbreviation score_result := (score_result solver).

Ltac unfold_prog :=
  unfold write_row, mbind, prog_bind, bind, mret, prog_ret, ret, default_size,
    half_nodes, on_G, on_local, history_append, history_append_eval, get_id,
    incr_id, set_history, ret in *; simpl in *.

Lemma write_row_ok val_index size val_type algo ev f (w w' : world) :
  write_row val_index size val_type algo ev f w = (Ok tt, w') →
  ∃ d, (f (graph w)).2 = Ok d ∧
    graph w' = (f (graph w)).1 ∧
    trace w' = trace w ++ [ev (graph w)] ∧
    instance_generator (self w') = instance_generator (self w) ∧
    id (self w') = id (self w) + 1 ∧
    appended (history (self w)) (history (self w')) "id" (VInt (id (self w))) ∧
    appended (history (self w)) (history (self w')) "val_index" (VInt val_index) ∧
    appended (history (self w)) (history (self w')) "size" size ∧
    appended (history (self w)) (history (self w')) "valuation" (VStr val_type) ∧
    appended (history (self w)) (history (self w')) "algo" (VStr algo) ∧
    appended (history (self w)) (history (self w')) "distortion" (VNum d) ∧
    (∀ key, key ∉ history_keys →
       history (self w') !! key = history (self w) !! key).
Proof.
  unfold_prog. intros Hr.
  repeat (case_match; simplify_eq/=).
  eexists. split; [done|]. simplify_map_eq.
  repeat (split; [first [done | eexists; split; [eassumption|]; by simplify_map_eq] |]).
  intros key Hkey. unfold history_keys in Hkey.
  rewrite !lookup_insert_ne; [done|..]; intros <-; apply Hkey; set_solver.
Qed.

Lemma write_row_any val_index size val_type algo ev f (w : world) r w' :
  write_row val_index size val_type algo ev f w = (r, w') →
  instance_generator (self w') = instance_generator (self w) ∧
  (∀ key, key ∉ history_keys →
     history (self w') !! key = history (self w) !! key) ∧
  ((graph w' = graph w ∧ trace w' = trace w ∧ r ≠ Ok tt)
   ∨ (graph w' = (f (graph w)).1 ∧ trace w' = trace w ++ [ev (graph w)])).
Proof.
  unfold_prog. intros Hr.
  repeat (case_match; simplify_eq/=);
    (split; [done|]); (split; [|by eauto]); intros key Hkey;
    rewrite ?lookup_insert_ne; try done; intros <-; apply Hkey;
    unfold history_keys; set_solver.
Qed.

(** When the scoring call raises, the row is left incomplete: five
    lists have grown, the list of distortions has not. *)
Lemma write_row_score_raises val_index size val_type algo ev f (w : world) x :
  (∀ key, key ∈ history_keys → is_Some (history (self w) !! key)) →
  (f (graph w)).2 = Raise x →
  ∃ w', write_row val_index size val_type algo ev f w = (Raise x, w') ∧
    id (self w') = id (self w) + 1 ∧
    appended (history (self w)) (history (self w')) "id" (VInt (id (self w))) ∧
    appended (history (self w)) (history (self w')) "algo" (VStr algo) ∧
    history (self w') !! "distortion" = history (self w) !! "distortion".
Proof.
  intros Hkeys Hf.
  destruct (Hkeys "id") as [l1 H1]; [set_solver|].
  destruct (Hkeys "val_index") as [l2 H2]; [set_solver|].
  destruct (Hkeys "size") as [l3 H3]; [set_solver|].
  destruct (Hkeys "valuation") as [l4 H4]; [set_solver|].
  destruct (Hkeys "algo") as [l5 H5]; [set_solver|].
  destruct (Hkeys "distortion") as [l6 H6]; [set_solver|].
  unfold_prog. simplify_map_eq. rewrite Hf. eexists. split; [done|]. simpl.
  split; [done|].
  split; [eexists; split; [eassumption|]; by simplify_map_eq|].
  split; [eexists; split; [eassumption|]; by simplify_map_eq|].
  by simplify_map_eq.
Qed.

(** Each method is its mechanism calls followed by [write_row]. *)
Lemma serial_dictatorship_experiment_unfold val_index val_type size agent_cap :
  serial_dictatorship_experiment val_index val_type size agent_cap =
  (size ← default_size size;
   M ← on_G (λ G, call_serial_dictatorship G agent_cap)
            (λ G, serial_dictatorship solver G agent_cap);
   write_row val_index (VInt size) val_type "serial_dictatorship"
     (λ G, call_calculate_modified_distortion G M "pareto")
     (λ G, calculate_modified_distortion solver G M "pareto")).
Proof. reflexivity. Qed.

Lemma partial_max_matching_experiment_unfold val_index val_type m size agent_cap :
  partial_max_matching_experiment val_index val_type m size agent_cap =
  (size ← default_size size;
   M ← on_G (λ G, call_partial_max_matching G m agent_cap)
            (λ G, partial_max_matching solver G m agent_cap);
   H ← on_G (λ G, call_reassign_labels G M) (λ G, reassign_labels solver G M);
   M_0 ← on_local H (λ H, call_top_trading_cycles H None)
                  (λ H, top_trading_cycles solver H None);
   write_row val_index (VInt size) val_type
     ("partial_max_matching" +:+ "_" +:+ str_int m)
     (λ G, call_calculate_distortion G M_0)
     (λ G, calculate_distortion solver G M_0)).
Proof. reflexivity. Qed.

Lemma modified_max_matching_experiment_unfold
    val_index val_type prio size agent_cap :
  modified_max_matching_experiment val_index val_type prio size agent_cap =
  (size ← default_size size;
   M_0 ← on_G (λ G, call_modified_max_matching G prio agent_cap)
              (λ G, modified_max_matching solver G prio agent_cap);
   write_row val_index (VInt size) val_type "modified_max_matching"
     (λ G, call_calculate_modified_distortion G M_0 prio)
     (λ G, calculate_modified_distortion solver G M_0 prio)).
Proof. reflexivity. Qed.

Lemma top_trading_cycles_experiment_unfold val_index val_type size agent_cap :
  top_trading_cycles_experiment val_index val_type size agent_cap =
  (size ← default_size size;
   M ← on_G (λ G, call_top_trading_cycles G agent_cap)
            (λ G, top_trading_cycles solver G agent_cap);
   write_row val_index (VInt size) val_type "ttc_matching"
     (λ G, call_calculate_modified_distortion G M "pareto")
     (λ G, calculate_modified_distortion solver G M "pareto")).
Proof. reflexivity. Qed.

Lemma epsilon_max_matching_experiment_unfold
    val_index val_type epsilon size agent_cap :
  epsilon_max_matching_experiment val_index val_type epsilon size agent_cap =
  (size ← default_size size;
   M ← on_G (λ G, call_epsilon_max_matching G epsilon None agent_cap)
            (λ G, epsilon_max_matching solver G epsilon None agent_cap);
   H ← on_G (λ G, call_reassign_labels G M) (λ G, reassign_labels solver G M);
   M_0 ← on_local H (λ H, call_top_trading_cycles H None)
                  (λ H, top_trading_cycles solver H None);
   write_row val_index (VInt size) val_type
     ("epsilon_max_matching" +:+ str_epsilon epsilon)
     (λ G, call_calculate_distortion G M_0)
     (λ G, calculate_distortion solver G M_0)).
Proof. reflexivity. Qed.

Lemma epsilon_max_matching_prio_experiment_unfold
    val_index val_type epsilon prio size agent_cap :
  epsilon_max_matching_prio_experiment
    val_index val_type epsilon prio size agent_cap =
  (size ← default_size size;
   M ← on_G (λ G, call_epsilon_max_matching G epsilon (Some prio) agent_cap)
            (λ G, epsilon_max_matching solver G epsilon (Some prio) agent_cap);
   write_row val_index (VInt size) val_type
     (("epsilon_max_matching " +:+ prio) +:+ str_epsilon epsilon)
     (λ G, call_calculate_modified_distortion G M prio)
     (λ G, calculate_modified_distortion solver G M prio)).
Proof. reflexivity. Qed.

Lemma twothirds_max_matching_experiment_unfold
    val_index val_type prio size agent_cap :
  twothirds_max_matching_experiment val_index val_type prio size agent_cap =
  (M ← on_G (λ G, call_twothirds_max_matching G prio agent_cap)
            (λ G, twothirds_max_matching solver G prio agent_cap);
   write_row val_index (value_of_size size) val_type
     ("twothirds_max_matching " +:+ prio)
     (λ G, call_calculate_modified_distortion G M prio)
     (λ G, calculate_modified_distortion solver G M prio)).
Proof. reflexivity. Qed.

Lemma updated_hybrid_max_matching_experiment_unfold
    val_index val_type size agent_cap :
  updated_hybrid_max_matching_experiment val_index val_type size agent_cap =
  (size ← default_size size;
   M ← on_G (λ G, call_updated_hybrid_max_matching G agent_cap)
            (λ G, updated_hybrid_max_matching solver G agent_cap);
   H ← on_G (λ G, call_reassign_labels G M) (λ G, reassign_labels solver G M);
   M_0 ← on_local H (λ H, call_top_trading_cycles H None)
                  (λ H, top_trading_cycles solver H None);
   write_row val_index (VInt size) val_type "updated_hybrid_max_matching"
     (λ G, call_calculate_modified_distortion G M_0 "pareto")
     (λ G, calculate_modified_distortion solver G M_0 "pareto")).
Proof. reflexivity. Qed.

#[local] Arguments write_row : simpl never.

(** Symbolic execution of the mechanism calls of a method, up to its
    [write_row]. *)
Ltac unfold_method H :=
  unfold run, body in H;
  first
    [ rewrite serial_dictatorship_experiment_unfold in H
    | rewrite partial_max_matching_experiment_unfold in H
    | rewrite modified_max_matching_experiment_unfold in H
    | rewrite top_trading_cycles_experiment_unfold in H
    | rewrite epsilon_max_matching_experiment_unfold in H
    | rewrite epsilon_max_matching_prio_experiment_unfold in H
    | rewrite twothirds_max_matching_experiment_unfold in H
    | rewrite updated_hybrid_max_matching_experiment_unfold in H ];
  unfold mbind, prog_bind, bind, default_size, half_nodes, ret, on_G, on_local
    in H;
  simpl in H.

Ltac step_calls H :=
  unfold_method H;
  repeat (case_match; simplify_eq/=).

(** The row written by a call that returns. *)
Lemma run_ok_row e (s : Simulator) w :
  run e s = (Ok tt, w) →
  instance_generator (self w) = instance_generator s ∧
  id (self w) = id s + 1 ∧
  appended (history s) (history (self w)) "id" (VInt (id s)) ∧
  appended (history s) (history (self w)) "val_index"
    (VInt (arg_val_index (args_of e))) ∧
  appended (history s) (history (self w)) "size" (recorded_size e) ∧
  appended (history s) (history (self w)) "valuation"
    (VStr (arg_val_type (args_of e))) ∧
  appended (history s) (history (self w)) "algo" (VStr (recorded_algo e)) ∧
  (∃ d, appended (history s) (history (self w)) "distortion" (VNum d)) ∧
  (∀ key, key ∉ history_keys → history (self w) !! key = history s !! key).
Proof.
  intros Hr. destruct e as [a|a m|a prio|a|a eps|a eps prio|a prio|a];
    destruct a as [vi vt G [size|] cap]; step_calls Hr.
  all: apply write_row_ok in Hr as (d & _ & _ & _ & ? & ? & ? & ? & ? & ? & ? & ? & ?).
  all: simpl in *.
  all: repeat (split; [done|]); split; [|done]; by exists d.
Qed.

Lemma run_ok_appended e (s : Simulator) w key :
  run e s = (Ok tt, w) → key ∈ history_keys →
  ∃ v, appended (history s) (history (self w)) key v.
Proof.
  intros Hr Hkey.
  destruct (run_ok_row _ _ _ Hr) as (_ & _ & ? & ? & ? & ? & ? & [d ?] & _).
  unfold history_keys in Hkey.
  repeat (apply elem_of_cons in Hkey as [->|Hkey]; [by eexists|]).
  by apply elem_of_nil in Hkey.
Qed.

(** A run of calls that all return: every list has grown by one value
    per call, and the ids appended count up from [id s]. *)
Lemma run_all_rows es : ∀ s s' : Simulator,
  run_all es s = (Ok tt, s') →
  (∀ key, key ∈ history_keys → is_Some (history s !! key)) →
  id s' = id s + len es ∧
  (∀ key, key ∈ history_keys →
     ∃ l vs, history s !! key = Some l ∧ history s' !! key = Some (l ++ vs) ∧
             length vs = length es) ∧
  (∃ l, history s !! "id" = Some l ∧
        history s' !! "id" = Some (l ++ (VInt <$> seqZ (id s) (len es)))).
Proof.
  induction es as [|e es IH]; intros s s' Hr Hkeys; simpl in Hr.
  - simplify_eq. unfold len. split; [simpl; lia|]. split.
    + intros key Hkey. destruct (Hkeys key Hkey) as [l Hl].
      exists l, []. by rewrite app_nil_r.
    + destruct (Hkeys "id") as [l Hl]; [set_solver|].
      exists l. by rewrite app_nil_r.
  - destruct (run e s) as [[[]|x] w] eqn:He; [|done].
    pose proof (run_ok_row _ _ _ He) as (_ & Hid & [l0 [Hl0 Hl0']] & _).
    destruct (IH _ _ Hr) as (Hid' & Hlists & (l1 & Hl1 & Hl1')).
    { intros key Hkey. destruct (run_ok_appended _ _ _ key He Hkey)
        as (v & l & _ & ->). done. }
    unfold len in *. split; [rewrite Hid', Hid; simpl length; lia|]. split.
    + intros key Hkey.
      destruct (run_ok_appended _ _ _ key He Hkey) as (v & l & Hl & Hl').
      destruct (Hlists key Hkey) as (l' & vs & Hl2 & Hl2' & Hlen).
      exists l, (v :: vs). split; [done|]. simplify_eq.
      split; [by rewrite Hl2', <-app_assoc|]. simpl. by rewrite Hlen.
    + exists l0. split; [done|]. simplify_eq. rewrite Hl1', <-app_assoc.
      do 2 f_equal. simpl length.
      rewrite (seqZ_cons (id s)) by lia. simpl. rewrite Hid.
      do 3 f_equal; lia.
Qed.

Lemma write_row_returns val_index size val_type algo ev f (w : world) d :
  (∀ key, key ∈ history_keys → is_Some (history (self w) !! key)) →
  (f (graph w)).2 = Ok d →
  ∃ w', write_row val_index size val_type algo ev f w = (Ok tt, w').
Proof.
  intros Hkeys Hf.
  destruct (Hkeys "id") as [l1 H1]; [set_solver|].
  destruct (Hkeys "val_index") as [l2 H2]; [set_solver|].
  destruct (Hkeys "size") as [l3 H3]; [set_solver|].
  destruct (Hkeys "valuation") as [l4 H4]; [set_solver|].
  destruct (Hkeys "algo") as [l5 H5]; [set_solver|].
  destruct (Hkeys "distortion") as [l6 H6]; [set_solver|].
  unfold_prog. simplify_map_eq. rewrite Hf. by eexists.
Qed.

(** With a solver that never raises, a call on a simulator that has
    its six lists returns. *)
Lemma run_returns e (s : Simulator) :
  never_raises →
  (∀ key, key ∈ history_keys → is_Some (history s !! key)) →
  ∃ w, run e s = (Ok tt, w).
Proof.
  intros Hnr Hkeys.
  destruct e as [a|a m|a prio|a|a eps|a eps prio|a prio|a];
    destruct a as [vi vt G size cap]; unfold run, body; simpl.
  - rewrite serial_dictatorship_experiment_unfold.
    destruct (nr_serial_dictatorship _ Hnr G cap) as [M HM].
    destruct (nr_calculate_modified_distortion _ Hnr
                (serial_dictatorship solver G cap).1 M "pareto") as [d Hd].
    destruct size; unfold mbind, prog_bind, bind, default_size, half_nodes, ret,
      on_G; simpl; rewrite HM; by eapply write_row_returns.
  - rewrite partial_max_matching_experiment_unfold.
    destruct (nr_partial_max_matching _ Hnr G m cap) as [M HM].
    destruct (nr_reassign_labels _ Hnr (partial_max_matching solver G m cap).1 M)
      as [H HH].
    destruct (nr_top_trading_cycles _ Hnr H None) as [M0 HM0].
    destruct (nr_calculate_distortion _ Hnr
      (reassign_labels solver (partial_max_matching solver G m cap).1 M).1 M0)
      as [d Hd].
    destruct size; unfold mbind, prog_bind, bind, default_size, half_nodes, ret,
      on_G, on_local; simpl; rewrite HM; simpl; rewrite HH; simpl; rewrite HM0;
      by eapply write_row_returns.
  - rewrite modified_max_matching_experiment_unfold.
    destruct (nr_modified_max_matching _ Hnr G prio cap) as [M HM].
    destruct (nr_calculate_modified_distortion _ Hnr
                (modified_max_matching solver G prio cap).1 M prio) as [d Hd].
    destruct size; unfold mbind, prog_bind, bind, default_size, half_nodes, ret,
      on_G; simpl; rewrite HM; by eapply write_row_returns.
  - rewrite top_trading_cycles_experiment_unfold.
    destruct (nr_top_trading_cycles _ Hnr G cap) as [M HM].
    destruct (nr_calculate_modified_distortion _ Hnr
                (top_trading_cycles solver G cap).1 M "pareto") as [d Hd].
    destruct size; unfold mbind, prog_bind, bind, default_size, half_nodes, ret,
      on_G; simpl; rewrite HM; by eapply write_row_returns.
  - rewrite epsilon_max_matching_experiment_unfold.
    destruct (nr_epsilon_max_matching _ Hnr G eps None cap) as [M HM].
    destruct (nr_reassign_labels _ Hnr
                (epsilon_max_matching solver G eps None cap).1 M) as [H HH].
    destruct (nr_top_trading_cycles _ Hnr H None) as [M0 HM0].
    destruct (nr_calculate_distortion _ Hnr
      (reassign_labels solver (epsilon_max_matching solver G eps None cap).1 M).1
      M0) as [d Hd].
    destruct size; unfold mbind, prog_bind, bind, default_size, half_nodes, ret,
      on_G, on_local; simpl; rewrite HM; simpl; rewrite HH; simpl; rewrite HM0;
      by eapply write_row_returns.
  - rewrite epsilon_max_matching_prio_experiment_unfold.
    destruct (nr_epsilon_max_matching _ Hnr G eps (Some prio) cap) as [M HM].
    destruct (nr_calculate_modified_distortion _ Hnr
                (epsilon_max_matching solver G eps (Some prio) cap).1 M prio)
      as [d Hd].
    destruct size; unfold mbind, prog_bind, bind, default_size, half_nodes, ret,
      on_G; simpl; rewrite HM; by eapply write_row_returns.
  - rewrite twothirds_max_matching_experiment_unfold.
    destruct (nr_twothirds_max_matching _ Hnr G prio cap) as [M HM].
    destruct (nr_calculate_modified_distortion _ Hnr
                (twothirds_max_matching solver G prio cap).1 M prio) as [d Hd].
    unfold mbind, prog_bind, bind, on_G; simpl; rewrite HM;
      by eapply write_row_returns.
  - rewrite updated_hybrid_max_matching_experiment_unfold.
    destruct (nr_updated_hybrid_max_matching _ Hnr G cap) as [M HM].
    destruct (nr_reassign_labels _ Hnr
                (updated_hybrid_max_matching solver G cap).1 M) as [H HH].
    destruct (nr_top_trading_cycles _ Hnr H None) as [M0 HM0].
    destruct (nr_calculate_modified_distortion _ Hnr
      (reassign_labels solver (updated_hybrid_max_matching solver G cap).1 M).1
      M0 "pareto") as [d Hd].
    destruct size; unfold mbind, prog_bind, bind, default_size, half_nodes, ret,
      on_G, on_local; simpl; rewrite HM; simpl; rewrite HH; simpl; rewrite HM0;
      by eapply write_row_returns.
Qed.

Lemma init_has_keys (ig : InstanceGenerator) key :
  key ∈ history_keys →
  history (__init__ ig : Simulator) !! key = Some [].
Proof.
  unfold history_keys. intros Hkey.
  repeat (apply elem_of_cons in Hkey as [->|Hkey]; [done|]).
  by apply elem_of_nil in Hkey.
Qed.

(** C1. [updated_hybrid_max_matching_experiment] scores the outcome of
    the two stages: the matching [M] of [updated_hybrid_max_matching]
    goes to [reassign_labels], top trading cycles run on the graph
    [H] that comes back, and their matching [M_0] is what
    [calculate_modified_distortion] receives, with [prio='pareto'];
    the value it returns is the distortion recorded.  These four are
    the only solver calls of the method. *)
Theorem updated_hybrid_scores_both_stages a (s : Simulator) w :
  run (UpdatedHybridMaxMatching a) s = (Ok tt, w) →
  ∃ G1 M G2 H M_0 G3 d,
    updated_hybrid_max_matching solver (arg_G a) (arg_agent_cap a) = (G1, Ok M) ∧
    reassign_labels solver G1 M = (G2, Ok H) ∧
    (top_trading_cycles solver H None).2 = Ok M_0 ∧
    calculate_modified_distortion solver G2 M_0 "pareto" = (G3, Ok d) ∧
    trace w = [call_updated_hybrid_max_matching (arg_G a) (arg_agent_cap a);
               call_reassign_labels G1 M;
               call_top_trading_cycles H None;
               call_calculate_modified_distortion G2 M_0 "pareto"] ∧
    appended (history s) (history (self w)) "distortion" (VNum d).
Proof.
  intros Hr. destruct a as [vi vt G [size|] cap]; step_calls Hr.
  all: apply write_row_ok in Hr
      as (d & Hd & Hg & Ht & _ & _ & _ & _ & _ & _ & _ & Hdist & _).
  all: simpl in *.
  all: repeat match goal with
         | H : (?f).2 = Ok _ |- _ =>
             let G' := fresh "G'" in let r := fresh "r" in
             destruct f as [G' r] eqn:?; simpl in H; subst r
         | H : context [(?f).1] |- _ =>
             let G' := fresh "G'" in let r := fresh "r" in
             destruct f as [G' r] eqn:?; simpl in H
         end.
  all: simpl in *; simplify_eq.
  all: eexists _, _, _, _, _, _, _; split; [done|]; split; [done|].
  all: split; [by match goal with
                  | H : top_trading_cycles _ _ _ = _ |- _ => rewrite H
                  end|done].
Qed.

(** C3. The call sites of [partial_max_matching] and of
    [epsilon_max_matching] without [prio] are exactly
    [partial_max_matching_experiment] and
    [epsilon_max_matching_experiment], where the call comes first.
    Whenever such a method reaches a scoring call, the solver calls
    made are the first stage, [reassign_labels] on its matching [M],
    [top_trading_cycles] on the graph [H] obtained, and the scoring of
    the matching [M_0] of that second pass. *)
Theorem second_pass_follows_coarse_first_stage e (s : Simulator) r w :
  run e s = (r, w) →
  ((∃ c1, c1 ∈ trace w ∧ is_coarse_first_stage c1) ↔
     match e with
     | PartialMaxMatching _ _ | EpsilonMaxMatching _ _ => True
     | _ => False
     end) ∧
  (∀ c1 c, c1 ∈ trace w → is_coarse_first_stage c1 →
     c ∈ trace w → is_scoring c →
     ∃ G1 M G2 H M_0,
       stage_result c1 = Some (G1, Ok M) ∧
       reassign_labels solver G1 M = (G2, Ok H) ∧
       (top_trading_cycles solver H None).2 = Ok M_0 ∧
       c = call_calculate_distortion G2 M_0 ∧
       trace w = [c1; call_reassign_labels G1 M;
                  call_top_trading_cycles H None; c]) ∧
  (r = Ok tt → ∃ c, c ∈ trace w ∧ is_scoring c).
Proof.
  intros Hr.
  destruct e as [a|a m|a prio|a|a eps|a eps prio|a prio|a];
    destruct a as [vi vt G size cap]; destruct size; step_calls Hr.
  all: try (apply write_row_any in Hr
              as (_ & _ & [(_ & Ht & Hne)|[Hg Ht]]); simpl in * ).
  all: repeat match goal with
         | H : (?f).2 = _ |- _ =>
             let G' := fresh "G'" in let r := fresh "r" in
             destruct f as [G' r] eqn:?; simpl in H; subst r
         | H : context [(?f).1] |- _ =>
             let G' := fresh "G'" in let r := fresh "r" in
             destruct f as [G' r] eqn:?; simpl in H
         end.
  all: simpl in *; simplify_eq.
  all: try rewrite Ht.
  all: split; [|split].
  all: lazymatch goal with
       | |- _ ↔ _ =>
           split;
           [ intros (c1 & Hc1 & Hco); set_unfold; destruct_or?; by simplify_eq
           | intros HT;
             first [done | eexists; split; [apply list_elem_of_here|done]] ]
       | |- _ = Ok _ → _ =>
           intros Hok;
           first
             [ done
             | by eexists; split;
                  [do 1 apply list_elem_of_further; apply list_elem_of_here|]
             | by eexists; split;
                  [do 3 apply list_elem_of_further; apply list_elem_of_here|] ]
       | |- _ =>
           intros c1 c Hc1 Hco Hc Hsc; set_unfold; destruct_or?; simplify_eq;
           first
             [ done
             | eexists _, _, _, _, _; simpl;
               (split; [match goal with
                        | H : ?f = _ |- Some ?f = _ => by rewrite H
                        end|]);
               (split; [eassumption|]);
               (split; [match goal with
                        | H : top_trading_cycles _ _ _ = _ |- _ => by rewrite H
                        end|]);
               done ]
       end.
Qed.

(** C6. After any sequence of experiment calls on a new simulator, the
    six lists of [history] have one entry per call, the ids recorded
    are 1, 2, ..., n in this order and the counter stands at n + 1;
    and any further call appends exactly one value to each of the six
    lists and adds one to the counter. *)
Theorem history_rows_and_ids (ig : InstanceGenerator) es s :
  run_all es (__init__ ig) = (Ok tt, s) →
  (∀ key, key ∈ history_keys →
     ∃ vs, history s !! key = Some vs ∧ length vs = length es) ∧
  history s !! "id" = Some (VInt <$> seqZ 1 (len es)) ∧
  id s = 1 + len es ∧
  (∀ e w, run e s = (Ok tt, w) →
     id (self w) = id s + 1 ∧
     ∀ key, key ∈ history_keys →
       ∃ v, appended (history s) (history (self w)) key v).
Proof.
  intros Hr.
  destruct (run_all_rows es _ _ Hr) as (Hid & Hlists & (l & Hl & Hl')).
  { intros key Hkey. by rewrite init_has_keys. }
  split; [|split; [|split]].
  - intros key Hkey. destruct (Hlists key Hkey) as (l0 & vs & Hl0 & Hvs & Hlen).
    rewrite init_has_keys in Hl0 by done. simplify_eq. by exists vs.
  - rewrite init_has_keys in Hl by set_solver. by simplify_eq.
  - done.
  - intros e w He. split; [by apply run_ok_row in He as (_ & ? & _)|].
    intros key Hkey. by eapply run_ok_appended.
Qed.

(** C7. Given a solver that leaves the graph object as it found it, a
    call of an experiment method, whether it returns or raises, leaves
    the graph [G] and the [instance_generator] attribute unchanged;
    in [history] nothing but the six lists is touched. *)
Theorem experiments_touch_only_history_and_id e (s : Simulator) r w :
  read_only →
  run e s = (r, w) →
  graph w = arg_G (args_of e) ∧
  instance_generator (self w) = instance_generator s ∧
  (∀ key, key ∉ history_keys → history (self w) !! key = history s !! key).
Proof.
  intros Hro Hr.
  destruct e as [a|a m|a prio|a|a eps|a eps prio|a prio|a];
    destruct a as [vi vt G size cap]; destruct size; step_calls Hr.
  all: try (apply write_row_any in Hr
              as (Hig & Hframe & [(Hg & _ & _)|[Hg _]]); simpl in * ).
  all: split; [|by split].
  all: rewrite ?Hg.
  all: rewrite ?(ro_calculate_distortion _ Hro),
         ?(ro_calculate_modified_distortion _ Hro), ?(ro_reassign_labels _ Hro).
  all: by rewrite ?(ro_serial_dictatorship _ Hro), ?(ro_partial_max_matching _ Hro),
         ?(ro_modified_max_matching _ Hro), ?(ro_top_trading_cycles _ Hro),
         ?(ro_epsilon_max_matching _ Hro), ?(ro_twothirds_max_matching _ Hro),
         ?(ro_updated_hybrid_max_matching _ Hro).
Qed.

(** C8, as the code has it.  The string appended to [history['algo']]
    is the name of the algorithm, followed by [m] for
    [partial_max_matching_experiment], by [epsilon] for
    [epsilon_max_matching_experiment], by [prio] and [epsilon] for the
    prio variant and by [prio] for
    [twothirds_max_matching_experiment]; for
    [modified_max_matching_experiment] it is the bare name, whatever
    [prio] is. *)
Theorem algo_string_recorded e (s : Simulator) w :
  run e s = (Ok tt, w) →
  appended (history s) (history (self w)) "algo"
    (VStr
       match e with
       | SerialDictatorship _ => "serial_dictatorship"
       | PartialMaxMatching _ m => "partial_max_matching_" +:+ str_int m
       | ModifiedMaxMatching _ _ => "modified_max_matching"
       | TopTradingCycles _ => "ttc_matching"
       | EpsilonMaxMatching _ epsilon =>
           "epsilon_max_matching" +:+ str_epsilon epsilon
       | EpsilonMaxMatchingPrio _ epsilon prio =>
           "epsilon_max_matching " +:+ prio +:+ str_epsilon epsilon
       | TwothirdsMaxMatching _ prio => "twothirds_max_matching " +:+ prio
       | UpdatedHybridMaxMatching _ => "updated_hybrid_max_matching"
       end).
Proof.
  intros Hr. by apply run_ok_row in Hr as (_ & _ & _ & _ & _ & _ & ? & _).
Qed.

(** C9. A scoring call made by [serial_dictatorship_experiment] or
    [top_trading_cycles_experiment] is a call of
    [calculate_modified_distortion] with [prio='pareto']; one made by
    [partial_max_matching_experiment] or
    [epsilon_max_matching_experiment] is a call of
    [calculate_distortion].  A method that returns has made its
    scoring call last, and has recorded the value it returned. *)
Theorem scorer_fixed_per_method e (s : Simulator) r w :
  run e s = (r, w) →
  (∀ c, c ∈ trace w → is_scoring c →
     match e with
     | SerialDictatorship _ | TopTradingCycles _ =>
         ∃ G M, c = call_calculate_modified_distortion G M "pareto"
     | PartialMaxMatching _ _ | EpsilonMaxMatching _ _ =>
         ∃ G M, c = call_calculate_distortion G M
     | _ => True
     end) ∧
  (r = Ok tt →
     ∃ c d, last (trace w) = Some c ∧ is_scoring c ∧
            snd <$> score_result c = Some (Ok d) ∧
               appended (history s) (history (self w)) "distortion" (VNum d)).
Proof.
  intros Hr.
  destruct e as [a|a m|a prio|a|a eps|a eps prio|a prio|a];
    destruct a as [vi vt G size cap]; destruct size; step_calls Hr.
  all: try (destruct r as [[]|x];
            [ apply write_row_ok in Hr
                as (d & Hd & _ & Ht & _ & _ & _ & _ & _ & _ & _ & Hdist & _)
            | apply write_row_any in Hr as (_ & _ & [(_ & Ht & _)|[_ Ht]]) ];
            simpl in *; rewrite Ht).
  all: split;
    [ intros c Hc Hsc; set_unfold; destruct_or?; simplify_eq; by eauto
    | intros Hok; first
        [ done
        | simplify_eq; eexists _, d; simpl;
          split; [reflexivity|]; split; [done|]; split; [|done];
          simpl; by f_equal ] ].
Qed.

(** C10. With [size] omitted, [twothirds_max_matching_experiment]
    appends [None] to [history['size']], and each of the other seven
    methods appends [len(G.nodes)//2]. *)
Theorem size_recorded_when_omitted e (s : Simulator) w :
  arg_size (args_of e) = None →
  run e s = (Ok tt, w) →
  appended (history s) (history (self w)) "size"
    match e with
    | TwothirdsMaxMatching _ _ => VNone
    | _ => VInt (floordiv (len (nodes (arg_G (args_of e)))) 2)
    end.
Proof.
  intros Hsize Hr.
  apply run_ok_row in Hr as (_ & _ & _ & _ & Hs & _).
  destruct e; simpl in *; unfold recorded_size in Hs; simpl in Hs;
    by rewrite Hsize in Hs.
Qed.

End SimulatorFacts.

(** ** Facts about the solver core *)

Section SolverCoreFacts.
Import SolverCore.

Lemma elem_of_sublists {A} (l k : list A) : k ∈ sublists l ↔ k `sublist_of` l.
Proof.
  revert k. induction l as [|x l IH]; intros k; simpl.
  - rewrite list_elem_of_singleton. split; [intros ->; constructor|].
    apply sublist_nil_r.
  - rewrite elem_of_app, list_elem_of_fmap, sublist_cons_r.
    split.
    + intros [?%IH|(k' & -> & ?%IH)]; eauto.
    + intros [?%IH|(k' & -> & ?%IH)]; eauto.
Qed.

Lemma welfare_Permutation G (M M' : Matching) :
  M ≡ₚ M' → (welfare G M == welfare G M')%Q.
Proof.
  induction 1 as [|p M M' _ IH|p q M|M M' M'' _ IH1 _ IH2]; simpl.
  - reflexivity.
  - by rewrite IH.
  - ring.
  - by rewrite IH1.
Qed.

Lemma is_matching_Permutation (M M' : Matching) :
  M ≡ₚ M' → is_matching M → is_matching M'.
Proof. intros HP [H1 H2]. split; by rewrite <-HP. Qed.

Lemma all_matchings_feasible G M : M ∈ all_matchings G → feasible G M.
Proof.
  unfold all_matchings. intros [HM Hsub]%list_elem_of_filter.
  apply elem_of_sublists in Hsub.
  split; [done|]. apply Forall_forall. intros p Hp.
  eapply elem_of_sublist in Hp; [|done].
  apply list_elem_of_fmap in Hp as ([p' w] & -> & Hp).
  apply elem_of_map_to_list in Hp. by eexists.
Qed.

Lemma feasible_all_matchings G M :
  feasible G M → ∃ M', M' ∈ all_matchings G ∧ M ≡ₚ M'.
Proof.
  intros [HM Hedges].
  assert (M ⊆+ (map_to_list (edges G)).*1) as Hsub.
  { apply NoDup_submseteq; [by eapply NoDup_fmap_1, HM|].
    intros p Hp. rewrite Forall_forall in Hedges.
    destruct (Hedges p Hp) as [w Hw].
    apply list_elem_of_fmap. exists (p, w). split; [done|].
    by apply elem_of_map_to_list. }
  apply submseteq_sublist_r in Hsub as (M' & HP & Hsub).
  exists M'. split; [|done]. unfold all_matchings.
  apply list_elem_of_filter.
  split; [by eapply is_matching_Permutation|by apply elem_of_sublists].
Qed.

Lemma empty_all_matchings G : [] ∈ all_matchings G.
Proof.
  unfold all_matchings. apply list_elem_of_filter.
  split; [split; constructor|apply elem_of_sublists, sublist_nil_l].
Qed.

Lemma Qmaximum_lower (l : list Q) : (0 <= foldr Qmax 0 l)%Q.
Proof.
  induction l as [|x l IH]; simpl; [apply Qle_refl|].
  eapply Qle_trans; [apply IH|apply Q.le_max_r].
Qed.

Lemma Qmaximum_upper (l : list Q) x : x ∈ l → (x <= foldr Qmax 0 l)%Q.
Proof.
  induction 1 as [x l|x y l _ IH]; simpl.
  - apply Q.le_max_l.
  - eapply Qle_trans; [apply IH|apply Q.le_max_r].
Qed.

Lemma Qmaximum_cases (l : list Q) :
  (foldr Qmax 0 l == 0)%Q ∨ ∃ x, x ∈ l ∧ (x == foldr Qmax 0 l)%Q.
Proof.
  induction l as [|y l IH]; simpl; [by left|].
  destruct (Q.max_spec y (foldr Qmax 0%Q l)) as [[_ Heq]|[_ Heq]].
  - destruct IH as [IH|(x & Hx & Hxe)].
    + left. by rewrite Heq.
    + right. exists x. split; [by right|]. by rewrite Heq.
  - right. exists y. split; [by left|]. by rewrite Heq.
Qed.

Lemma Qmaximum_attained (l : list Q) :
  0%Q ∈ l → ∃ x, x ∈ l ∧ (x == foldr Qmax 0 l)%Q.
Proof.
  intros H0. destruct (Qmaximum_cases l) as [Hz|?]; [|done].
  exists 0%Q. split; [done|]. by rewrite Hz.
Qed.

Lemma OPT_nonneg G : (0 <= OPT G)%Q.
Proof. apply Qmaximum_lower. Qed.

(** The optimum bounds the welfare of every feasible matching. *)
Lemma welfare_le_OPT G M : feasible G M → (welfare G M <= OPT G)%Q.
Proof.
  intros (M' & HM' & HP)%feasible_all_matchings.
  rewrite (welfare_Permutation _ _ _ HP). apply Qmaximum_upper.
  by apply list_elem_of_fmap_2.
Qed.

(** The optimum is the welfare of some feasible matching. *)
Lemma OPT_attained G :
  ∃ M, M ∈ all_matchings G ∧ (welfare G M == OPT G)%Q.
Proof.
  destruct (Qmaximum_attained (welfare G <$> all_matchings G))
    as (x & Hx & Hxe).
  { apply list_elem_of_fmap. exists []. split; [done|apply empty_all_matchings]. }
  apply list_elem_of_fmap in Hx as (M & -> & HM). by exists M.
Qed.

Lemma welfare_nonneg G M : nonneg_weights G → (0 <= welfare G M)%Q.
Proof.
  intros Hnn. induction M as [|p M IH]; simpl; [apply Qle_refl|].
  assert (0 <= weight G p)%Q.
  { unfold weight. destruct (edges G !! p) as [w|] eqn:Hw; simpl;
      [|apply Qle_refl].
    apply Is_true_true in Hnn. unfold nonneg_weights in Hnn.
    rewrite forallb_forall in Hnn. apply Qle_bool_iff, (Hnn (p, w)).
    by apply list_elem_of_In, elem_of_map_to_list. }
  lra.
Qed.

Lemma select_elem_of better cands M : select better cands = Some M → M ∈ cands.
Proof.
  destruct cands as [|M0 Ms]; [done|]. simpl. intros [= <-].
  revert M0. induction Ms as [|M1 Ms IH]; intros M0; simpl; [by left|].
  destruct (better M1 M0).
  - right. apply IH.
  - specialize (IH M0). apply elem_of_cons in IH as [IH|IH].
    + rewrite IH. by left.
    + by do 2 right.
Qed.

Lemma select_is_Some better cands M :
  M ∈ cands → is_Some (select better cands).
Proof. destruct cands; [by intros ?%elem_of_nil|by eexists]. Qed.


(** C2, as the specification has it: for a graph with non-negative
    weights and a positive optimum, [calculate_distortion] returns, for
    every feasible matching, a value that is at least 1 (the unbounded
    sentinel when the welfare is 0), and the value is 1 exactly when
    the matching has the maximum weight.  With optimum 0 the function
    fails. *)
Theorem calculate_distortion_at_least_one G M :
  nonneg_weights G → feasible G M →
  ((0 < OPT G)%Q →
   ∃ d, calculate_distortion G M = Ok d ∧ at_least_one d ∧
        (is_one d ↔ (welfare G M == OPT G)%Q)) ∧
  ((OPT G == 0)%Q → ∃ x, calculate_distortion G M = Raise x).
Proof.
  intros Hnn Hfeas. unfold calculate_distortion.
  destruct (decide (feasible G M)) as [_|]; [|done].
  pose proof (welfare_le_OPT G M Hfeas) as Hle.
  pose proof (welfare_nonneg G M Hnn) as Hw.
  split.
  - intros Hpos.
    destruct (Qeq_bool (OPT G) 0) eqn:Hopt.
    { apply Qeq_bool_iff in Hopt. lra. }
    destruct (Qeq_bool (welfare G M) 0) eqn:Hzero.
    + apply Qeq_bool_iff in Hzero. exists Unbounded. split; [done|].
      split; [done|]. simpl. split; [done|]. lra.
    + apply Qeq_bool_neq in Hzero.
      assert (0 < welfare G M)%Q as Hwpos by lra.
      exists (Ratio (OPT G / welfare G M)). split; [done|]. simpl. split.
      * apply Qle_shift_div_l; [done|]. lra.
      * split.
        -- intros Hone.
           rewrite <-(Qmult_div_r (OPT G) (welfare G M)) by done.
           rewrite Hone. ring.
        -- intros Heq. rewrite <-Heq. unfold Qdiv.
           by apply Qmult_inv_r.
  - intros Hopt. apply Qeq_bool_iff in Hopt. rewrite Hopt. by eexists.
Qed.

(** C4. On a well-formed instance [modified_max_matching] returns, for
    every [prio], a feasible matching whose total weight is the maximum
    over all feasible matchings of the graph: the choice of [prio]
    leaves the total weight the same. *)
Theorem modified_max_matching_weight G prio agent_cap cap :
  check_instance G agent_cap = Ok cap →
  ∃ M, modified_max_matching G prio agent_cap = Ok M ∧
       feasible G M ∧
       (welfare G M == OPT G)%Q ∧
       (∀ M', feasible G M' → (welfare G M' <= welfare G M)%Q) ∧
       (∀ prio', ∃ M', modified_max_matching G prio' agent_cap = Ok M' ∧
                       (welfare G M' == welfare G M)%Q).
Proof.
  intros Hcheck.
  assert (∀ p, ∃ M, modified_max_matching G p agent_cap = Ok M ∧
                    feasible G M ∧ (welfare G M == OPT G)%Q) as Hall.
  { intros p. unfold modified_max_matching. rewrite Hcheck.
    destruct (OPT_attained G) as (M0 & HM0 & Hopt).
    destruct (select_is_Some (better G cap p)
                (filter (λ M, Qeq_bool (welfare G M) (OPT G)) (all_matchings G))
                M0) as [M HM].
    { apply list_elem_of_filter. split; [|done].
      by apply Is_true_true, Qeq_bool_iff. }
    rewrite HM. exists M. split; [done|].
    apply select_elem_of, list_elem_of_filter in HM as [Hw HM].
    split; [by apply all_matchings_feasible|].
    by apply Qeq_bool_iff, Is_true_true. }
  destruct (Hall prio) as (M & HM & Hfeas & Hopt).
  exists M. repeat (split; [done|]). split.
  - intros M' HM'. rewrite Hopt. by apply welfare_le_OPT.
  - intros prio'. destruct (Hall prio') as (M' & HM' & _ & Hopt').
    exists M'. split; [done|]. by rewrite Hopt, Hopt'.
Qed.

(** C5. On a well-formed instance and for [epsilon] in (0,1],
    [epsilon_max_matching] returns a feasible matching whose total
    weight is at least [(1 - epsilon)] times the maximum matching
    weight of the graph. *)
Theorem epsilon_max_matching_weight G epsilon prio agent_cap cap :
  (0 < epsilon)%Q → (epsilon <= 1)%Q →
  check_instance G agent_cap = Ok cap →
  ∃ M, epsilon_max_matching G epsilon prio agent_cap = Ok M ∧
       feasible G M ∧
       ((1 - epsilon) * OPT G <= welfare G M)%Q.
Proof.
  intros Hpos Hle Hcheck. unfold epsilon_max_matching.
  assert (Qle_bool epsilon 0 = false) as ->.
  { apply not_true_is_false. rewrite Qle_bool_iff. lra. }
  assert (Qle_bool epsilon 1 = true) as -> by by apply Qle_bool_iff.
  simpl. rewrite Hcheck.
  destruct (OPT_attained G) as (M0 & HM0 & Hopt).
  pose proof (OPT_nonneg G) as Hnn.
  destruct (select_is_Some (better G cap prio)
              (filter (λ M, Qle_bool ((1 - epsilon) * OPT G) (welfare G M))
                 (all_matchings G)) M0) as [M HM].
  { apply list_elem_of_filter. split; [|done].
    apply Is_true_true, Qle_bool_iff. rewrite Hopt. nra. }
  rewrite HM. exists M. split; [done|].
  apply select_elem_of, list_elem_of_filter in HM as [Hw HM].
  split; [by apply all_matchings_feasible|].
  by apply Qle_bool_iff, Is_true_true.
Qed.

End SolverCoreFacts.

(** ** Further facts about the experiment methods *)

Section SimulatorStages.

Context {Graph Matching Distortion Epsilon InstanceGenerator : Type}.
Variable nodes : Graph → list Z.
Variable str_epsilon : Epsilon → string.
Variable solver : @Solver Graph Matching Distortion Epsilon.

#[local] Abbreviation Simulator := (@Simulator Distortion InstanceGenerator).
#[local] Abbreviation world :=
  (@world Graph Matching Distortion Epsilon InstanceGenerator).
#[local] Abbreviation experiment := (@experiment Graph Epsilon).
#[local] Abbreviation run :=
  (run (InstanceGenerator := InstanceGenerator) nodes str_epsilon solver).
#[local] Abbreviation solver_call := (@solver_call Graph Matching Epsilon).
#[local] Abbreviation mechanism_call :=
  (@mechanism_call Graph Matching Epsilon).
#[local] Abbreviation scoring_call := (@scoring_call Graph Matching Epsilon).
#[local] Abbreviation run_all :=
  (run_all (InstanceGenerator := InstanceGenerator) nodes str_epsilon solver).
#[local] Abbreviation recorded_size := (recorded_size nodes).
#[local] Abbreviation recorded_algo := (recorded_algo str_epsilon).
#[local] Abbreviation mechanism := (mechanism solver).
#[local] Abbreviation scorer := (scorer solver).
#[local] Abbreviation first_stages := (first_stages solver).
#[local] Abbreviation never_raises := (never_raises solver).
#[local] Abbreviation read_only := (read_only solver).
#[local] Abbreviation has_keys := (@has_keys Distortion InstanceGenerator).

(** A method is its mechanism stages followed by the writing of the
    row. *)
Lemma run_stages e (s : Simulator) :
  run e s =
  match first_stages e with
  | (calls, G', Raise x) => (Raise x, {| self := s; graph := G'; trace := calls |})
  | (calls, G', Ok M) =>
      write_row (arg_val_index (args_of e)) (recorded_size e)
        (arg_val_type (args_of e)) (recorded_algo e)
        (λ G, scoring_call e G M) (λ G, scorer e G M)
        {| self := s; graph := G'; trace := calls |}
  end.
Proof.
  destruct e as [a|a m|a prio|a|a eps|a eps prio|a prio|a];
    destruct a as [vi vt G [size|] cap];
    unfold run, body, first_stages, mechanism;
    simpl.
  all: unfold serial_dictatorship_experiment, partial_max_matching_experiment,
         modified_max_matching_experiment, top_trading_cycles_experiment,
         epsilon_max_matching_experiment, epsilon_max_matching_prio_experiment,
         twothirds_max_matching_experiment,
         updated_hybrid_max_matching_experiment,
         mbind, prog_bind, bind, default_size, half_nodes, ret, on_G, on_local;
       simpl.
  all: repeat match goal with
         | |- context [match (?f).2 with _ => _ end] => destruct (f) as [? []]; simpl
         end; reflexivity.
Qed.


Lemma has_keys_lookup (s : Simulator) key :
  has_keys s → key ∈ history_keys → is_Some (history s !! key).
Proof. unfold has_keys. rewrite Forall_forall. auto. Qed.

Ltac unfold_row :=
  unfold write_row, mbind, prog_bind, bind, mret, prog_ret, ret, on_G,
    history_append, history_append_eval, get_id, incr_id, set_history, ret in *;
  simpl in *.

(** The row on a simulator that has its six lists: the scoring call is
    made, five entries are written, and the sixth is written when the
    scoring call returns. *)
Lemma write_row_keys val_index size val_type algo ev f (w : world) r w' :
  has_keys (self w) →
  write_row val_index size val_type algo ev f w = (r, w') →
  trace w' = trace w ++ [ev (graph w)] ∧
  graph w' = (f (graph w)).1 ∧
  id (self w') = id (self w) + 1 ∧
  appended (history (self w)) (history (self w')) "id" (VInt (id (self w))) ∧
  appended (history (self w)) (history (self w')) "val_index" (VInt val_index) ∧
  appended (history (self w)) (history (self w')) "size" size ∧
  appended (history (self w)) (history (self w')) "valuation" (VStr val_type) ∧
  appended (history (self w)) (history (self w')) "algo" (VStr algo) ∧
  match (f (graph w)).2 with
  | Ok d =>
      r = Ok tt ∧
      appended (history (self w)) (history (self w')) "distortion" (VNum d)
  | Raise x =>
      r = Raise x ∧
      history (self w') !! "distortion" = history (self w) !! "distortion"
  end.
Proof.
  intros Hkeys.
  destruct (has_keys_lookup _ "id" Hkeys) as [l1 H1]; [set_solver|].
  destruct (has_keys_lookup _ "val_index" Hkeys) as [l2 H2]; [set_solver|].
  destruct (has_keys_lookup _ "size" Hkeys) as [l3 H3]; [set_solver|].
  destruct (has_keys_lookup _ "valuation" Hkeys) as [l4 H4]; [set_solver|].
  destruct (has_keys_lookup _ "algo" Hkeys) as [l5 H5]; [set_solver|].
  destruct (has_keys_lookup _ "distortion" Hkeys) as [l6 H6]; [set_solver|].
  unfold_row. simplify_map_eq.
  destruct (f (graph w)) as [G' [d|x]]; simpl; intros [= <- <-]; simpl.
  all: repeat (split; [first [done | eexists; split; [eassumption|];
                              by simplify_map_eq]|]).
  - eexists; split; [eassumption|]; by simplify_map_eq.
  - by simplify_map_eq.
Qed.

(** The row on a simulator that lacks one of its lists: [KeyError] for
    the first list that is missing, and no scoring call. *)
Lemma write_row_missing_key val_index size val_type algo ev f (w : world) r w' :
  ¬ has_keys (self w) →
  write_row val_index size val_type algo ev f w = (r, w') →
  ∃ key, r = Raise (KeyError key) ∧ first_missing_key (self w) key ∧
         trace w' = trace w ∧ graph w' = graph w.
Proof.
  intros Hkeys. unfold first_missing_key.
  destruct (history (self w) !! "id") as [l1|] eqn:H1; cycle 1.
  { unfold_row. rewrite H1. intros [= <- <-].
    exists "id". split; [done|]. split; [|done]. by exists [], (tail history_keys). }
  destruct (history (self w) !! "val_index") as [l2|] eqn:H2; cycle 1.
  { unfold_row. simplify_map_eq. intros [= <- <-].
    exists "val_index". split; [done|]. split; [|done].
    exists ["id"], (drop 2 history_keys). split; [done|].
    split; [|done]. by repeat constructor. }
  destruct (history (self w) !! "size") as [l3|] eqn:H3; cycle 1.
  { unfold_row. simplify_map_eq. intros [= <- <-].
    exists "size". split; [done|]. split; [|done].
    exists ["id"; "val_index"], (drop 3 history_keys). split; [done|].
    split; [|done]. by repeat constructor. }
  destruct (history (self w) !! "valuation") as [l4|] eqn:H4; cycle 1.
  { unfold_row. simplify_map_eq. intros [= <- <-].
    exists "valuation". split; [done|]. split; [|done].
    exists ["id"; "val_index"; "size"], (drop 4 history_keys). split; [done|].
    split; [|done]. by repeat constructor. }
  destruct (history (self w) !! "algo") as [l5|] eqn:H5; cycle 1.
  { unfold_row. simplify_map_eq. intros [= <- <-].
    exists "algo". split; [done|]. split; [|done].
    exists ["id"; "val_index"; "size"; "valuation"], (drop 5 history_keys).
    split; [done|]. split; [|done]. by repeat constructor. }
  destruct (history (self w) !! "distortion") as [l6|] eqn:H6; cycle 1.
  { unfold_row. simplify_map_eq. intros [= <- <-].
    exists "distortion". split; [done|]. split; [|done].
    exists ["id"; "val_index"; "size"; "valuation"; "algo"], [].
    split; [done|]. split; [|done]. by repeat constructor. }
  destruct Hkeys. unfold has_keys, history_keys. by repeat constructor.
Qed.

(** Whatever happens, the row only appends. *)
Lemma write_row_grows val_index size val_type algo ev f (w : world) r w' :
  write_row val_index size val_type algo ev f w = (r, w') →
  id (self w) ≤ id (self w') ≤ id (self w) + 1 ∧
  ∀ key,
    match history (self w) !! key with
    | None => history (self w') !! key = None
    | Some l =>
        ∃ vs, history (self w') !! key = Some (l ++ vs) ∧ (length vs ≤ 1)%nat
    end.
Proof.
  destruct w as [[ig h0 i0] G0 calls]. unfold_row. intros Hr.
  assert (∀ l : list (@value Distortion), ∃ vs, Some l = Some (l ++ vs) ∧
            (length vs ≤ 1)%nat) as Hnil.
  { intros l. exists []. rewrite app_nil_r. split; [done|simpl; lia]. }
  assert (∀ (l : list (@value Distortion)) v, ∃ vs, Some (l ++ [v]) = Some (l ++ vs) ∧
            (length vs ≤ 1)%nat) as Hone.
  { intros l v. exists [v]. split; [done|simpl; lia]. }
  repeat (case_match; simplify_eq/=); (split; [lia|]); intros key.
  all: destruct (h0 !! key) as [lkey|] eqn:Hlkey.
  all: repeat match goal with
         | |- context [<[?k:=_]> _ !! ?j] =>
             destruct (decide (k = j)) as [<-|];
             [rewrite lookup_insert_eq|rewrite lookup_insert_ne by done]
         end; simplify_map_eq; eauto.
Qed.


Lemma scoring_call_is_scoring (e : experiment) (G : Graph) (M : Matching) :
  is_scoring (scoring_call e G M).
Proof. unfold scoring_call. by destruct (scoring_prio e). Qed.

Lemma mechanism_call_not_scoring (e : experiment) :
  ¬ is_scoring (mechanism_call e).
Proof. destruct e; simpl; intros []. Qed.

(** The calls before the scoring: the mechanism first, at most three
    calls, none of them a scoring call. *)
Lemma first_stages_calls e :
  ∃ rest, (first_stages e).1.1 = mechanism_call e :: rest ∧
          (length rest ≤ if has_second_pass e then 2 else 0)%nat ∧
          Forall (λ c, ¬ is_scoring c) ((first_stages e).1.1).
Proof.
  pose proof (mechanism_call_not_scoring e) as Hm.
  unfold first_stages.
  destruct (mechanism e) as [G1 [M|x]]; simpl.
  - destruct (has_second_pass e); simpl.
    + destruct (reassign_labels solver G1 M) as [G2 [H|x]]; simpl;
        eexists; (split; [reflexivity|]); (split; [simpl; lia|]);
        repeat constructor; auto.
    + exists []. split; [done|]. split; [done|]. repeat constructor; auto.
  - exists []. split; [done|]. split; [destruct (has_second_pass e); simpl; lia|].
    repeat constructor; auto.
Qed.

Lemma first_stages_never_raises e :
  never_raises → ∃ M, (first_stages e).2 = Ok M.
Proof.
  intros Hnr. unfold first_stages.
  assert (∃ M, (mechanism e).2 = Ok M) as [M HM].
  { destruct e; simpl; apply Hnr. }
  rewrite HM. destruct (has_second_pass e); [|by eexists].
  destruct (nr_reassign_labels _ Hnr (mechanism e).1 M) as [H HH].
  rewrite HH. simpl. apply Hnr.
Qed.

(** X1. A call whose mechanism, [reassign_labels] or second pass
    raises leaves the simulator as it was: on a simulator that has its
    six lists, a call that raises without having reached a scoring call
    has changed neither [history] nor [id]. *)
Theorem mechanism_failure_leaves_simulator e (s : Simulator) x w :
  has_keys s →
  run e s = (Raise x, w) →
  Forall (λ c, ¬ is_scoring c) (trace w) →
  self w = s.
Proof.
  intros Hkeys Hr Hnone. rewrite run_stages in Hr.
  destruct (first_stages e) as [[calls G'] [M|x']]; [|by simplify_eq].
  apply write_row_keys in Hr as (Ht & _); [|done]. simpl in Ht.
  rewrite Ht, Forall_app, Forall_singleton in Hnone.
  destruct Hnone as [_ []]. apply scoring_call_is_scoring.
Qed.

(** X2. A call whose scoring function raises leaves an incomplete row:
    the counter has moved and five lists have an entry more, with the
    values of a call that returns, while [history['distortion']] is as
    before. *)
Theorem scoring_failure_leaves_partial_row e (s : Simulator) x w :
  has_keys s →
  run e s = (Raise x, w) →
  Exists (λ c, is_scoring c) (trace w) →
  id (self w) = id s + 1 ∧
  appended (history s) (history (self w)) "id" (VInt (id s)) ∧
  appended (history s) (history (self w)) "val_index"
    (VInt (arg_val_index (args_of e))) ∧
  appended (history s) (history (self w)) "size" (recorded_size e) ∧
  appended (history s) (history (self w)) "valuation"
    (VStr (arg_val_type (args_of e))) ∧
  appended (history s) (history (self w)) "algo" (VStr (recorded_algo e)) ∧
  history (self w) !! "distortion" = history s !! "distortion".
Proof.
  intros Hkeys Hr Hsome. rewrite run_stages in Hr.
  destruct (first_stages_calls e) as (rest & _ & _ & Hnone).
  destruct (first_stages e) as [[calls G'] [M|x']]; simpl in *.
  - apply write_row_keys in Hr
        as (_ & _ & Hid & H1 & H2 & H3 & H4 & H5 & Hd); [|done].
    simpl in *. destruct (scorer e G' M).2 as [d|x'].
    + by destruct Hd.
    + by destruct Hd as [_ Hd].
  - simplify_eq. simpl in Hsome.
    apply Exists_exists in Hsome as (c & Hc & Hsc).
    rewrite Forall_forall in Hnone. by destruct (Hnone c Hc).
Qed.

(** X3. With a solver that never raises, a call returns exactly when
    the simulator has its six lists. *)
Theorem returns_iff_has_keys e (s : Simulator) :
  never_raises →
  has_keys s ↔ ∃ w, run e s = (Ok tt, w).
Proof.
  intros Hnr. split.
  - intros Hkeys. apply run_returns; [done|].
    intros key Hkey. by apply has_keys_lookup.
  - intros [w Hr]. apply Forall_forall. intros key Hkey.
    destruct (run_ok_appended _ _ _ _ _ _ key Hr Hkey) as (v & l & Hl & _).
    by eexists.
Qed.

(** X4. With a solver that never raises, a call on a simulator that
    lacks one of its six lists raises [KeyError] for the first list
    that is missing, after the mechanism has run and without calling a
    scoring function. *)
Theorem missing_key_raises_KeyError e (s : Simulator) r w :
  never_raises →
  ¬ has_keys s →
  run e s = (r, w) →
  ∃ key, r = Raise (KeyError key) ∧ first_missing_key s key ∧
         head (trace w) = Some (mechanism_call e) ∧
         Forall (λ c, ¬ is_scoring c) (trace w).
Proof.
  intros Hnr Hkeys Hr. rewrite run_stages in Hr.
  destruct (first_stages_never_raises e Hnr) as [M HM].
  destruct (first_stages_calls e) as (rest & Hhead & _ & Hnone).
  destruct (first_stages e) as [[calls G'] rM]; simpl in *. subst rM.
  apply write_row_missing_key in Hr as (key & -> & Hfirst & Ht & _); [|done].
  exists key. simpl in *. rewrite Ht. split; [done|]. split; [done|].
  split; [by rewrite Hhead|done].
Qed.

(** X6. The methods without a second pass score the matching of their
    mechanism: a call that returns has made two solver calls, the
    mechanism and [calculate_modified_distortion] on the matching it
    returned, with the [prio] the method was given (['pareto'] for
    serial dictatorship and top trading cycles), and has recorded the
    value of the second. *)
Theorem single_stage_scores_mechanism_matching e (s : Simulator) w :
  has_second_pass e = false →
  run e s = (Ok tt, w) →
  ∃ M d,
    (mechanism e).2 = Ok M ∧
    trace w =
      [mechanism_call e;
       call_calculate_modified_distortion (mechanism e).1 M
         match e with
         | ModifiedMaxMatching _ prio | EpsilonMaxMatchingPrio _ _ prio
         | TwothirdsMaxMatching _ prio => prio
         | _ => "pareto"
         end] ∧
    (calculate_modified_distortion solver (mechanism e).1 M
       match e with
       | ModifiedMaxMatching _ prio | EpsilonMaxMatchingPrio _ _ prio
       | TwothirdsMaxMatching _ prio => prio
       | _ => "pareto"
       end).2 = Ok d ∧
    appended (history s) (history (self w)) "distortion" (VNum d).
Proof.
  intros Hsingle Hr. rewrite run_stages in Hr. unfold first_stages in Hr.
  rewrite Hsingle in Hr.
  destruct (mechanism e) as [G1 [M|x]] eqn:Hm; simpl in *; [|done].
  apply write_row_ok in Hr
      as (d & Hd & _ & Ht & _ & _ & _ & _ & _ & _ & _ & Hdist & _).
  simpl in *. exists M, d. split; [done|].
  destruct e; simpl in *; try done.
Qed.

(** X7. The solver calls of a method, whatever its outcome: the first
    is the mechanism, on the graph and with the [agent_cap] of the
    caller; there are at most two of them, four with a second pass; a
    scoring call, once made, is the last. *)
Theorem solver_calls_shape e (s : Simulator) r w :
  run e s = (r, w) →
  head (trace w) = Some (mechanism_call e) ∧
  (length (trace w) ≤ if has_second_pass e then 4 else 2)%nat ∧
  (∀ i c, trace w !! i = Some c → is_scoring c → S i = length (trace w)).
Proof.
  intros Hr. rewrite run_stages in Hr.
  destruct (first_stages_calls e) as (rest & Hhead & Hlen & Hnone).
  assert (∀ (calls : list solver_call) i c,
            Forall (λ c, ¬ is_scoring c) calls →
            calls !! i = Some c → is_scoring c → False) as Hno.
  { intros calls i c Hall Hc. rewrite Forall_forall in Hall.
    apply Hall. by eapply list_elem_of_lookup_2. }
  destruct (first_stages e) as [[calls G'] [M|x]]; simpl in *.
  - apply write_row_any in Hr as (_ & _ & [(_ & Ht & _)|[_ Ht]]);
      simpl in Ht; rewrite Ht.
    + split; [by rewrite Hhead|].
      split; [rewrite Hhead; destruct (has_second_pass e); simpl in *; lia|].
      intros i c Hc Hsc. by destruct (Hno _ _ _ Hnone Hc Hsc).
    + split; [by rewrite Hhead|]. split.
      { rewrite length_app, Hhead. destruct (has_second_pass e); simpl in *; lia. }
      intros i c Hc Hsc. rewrite length_app. simpl.
      apply lookup_app_Some in Hc as [Hc|[Hi Hc]].
      * by destruct (Hno _ _ _ Hnone Hc Hsc).
      * apply list_lookup_singleton_Some in Hc as [Hi' _]. lia.
  - injection Hr as <- <-. simpl. split; [by rewrite Hhead|].
    split; [rewrite Hhead; destruct (has_second_pass e); simpl in *; lia|].
    intros i c Hc Hsc. by destruct (Hno _ _ _ Hnone Hc Hsc).
Qed.

(** X8. Calls only append.  Whatever the solver does and whether the
    call returns or raises: [instance_generator] stays, [id] stays or
    grows by one, no key is added to [history] or removed from it, each
    of its lists keeps its entries and gains at most one, and only the
    six lists of the log can gain one. *)
Theorem history_only_grows e (s : Simulator) r w :
  run e s = (r, w) →
  instance_generator (self w) = instance_generator s ∧
  id s ≤ id (self w) ≤ id s + 1 ∧
  ∀ key,
    match history s !! key with
    | None => history (self w) !! key = None
    | Some l =>
        ∃ vs, history (self w) !! key = Some (l ++ vs) ∧
              (length vs ≤ 1)%nat ∧
              (key ∉ history_keys → vs = [])
    end.
Proof.
  intros Hr. rewrite run_stages in Hr.
  destruct (first_stages e) as [[calls G'] [M|x]]; simpl in *.
  - pose proof (write_row_any _ _ _ _ _ _ _ _ _ Hr) as (Hig & Hframe & _).
    pose proof (write_row_grows _ _ _ _ _ _ _ _ _ Hr) as (Hid & Hgrow).
    simpl in *. split; [done|]. split; [done|]. intros key.
    specialize (Hgrow key). specialize (Hframe key).
    destruct (history s !! key) as [l|] eqn:Hl; [|done].
    destruct Hgrow as (vs & Hvs & Hlen). exists vs. split; [done|].
    split; [done|]. intros Hkey. rewrite Hframe in Hvs by done.
    simplify_eq. apply (inj (app l)). by rewrite app_nil_r.
  - simplify_eq. simpl. split; [done|]. split; [lia|]. intros key.
    destruct (history s !! key) as [l|]; [|done].
    exists []. rewrite app_nil_r. split; [done|]. split; [simpl; lia|done].
Qed.

End SimulatorStages.

(** ** The log as a table, and the driver *)

Section SimulatorLog.

Context {Graph Matching Distortion Epsilon InstanceGenerator : Type}.
Variable nodes : Graph → list Z.
Variable str_epsilon : Epsilon → string.
Variable solver : @Solver Graph Matching Distortion Epsilon.

#[local] Abbreviation Simulator := (@Simulator Distortion InstanceGenerator).
#[local] Abbreviation value := (@value Distortion).
#[local] Abbreviation experiment := (@experiment Graph Epsilon).
#[local] Abbreviation run :=
  (run (InstanceGenerator := InstanceGenerator) nodes str_epsilon solver).
#[local] Abbreviation run_all :=
  (run_all (InstanceGenerator := InstanceGenerator) nodes str_epsilon solver).
#[local] Abbreviation recorded_size :=
  (recorded_size (Distortion := Distortion) nodes).
#[local] Abbreviation recorded_algo := (recorded_algo str_epsilon).
#[local] Abbreviation read_only := (read_only solver).
#[local] Abbreviation driver_call :=
  (driver_call (InstanceGenerator := InstanceGenerator) nodes str_epsilon solver).
#[local] Abbreviation driver_instance :=
  (driver_instance (InstanceGenerator := InstanceGenerator)
     nodes str_epsilon solver).
#[local] Abbreviation driver_loop :=
  (driver_loop (InstanceGenerator := InstanceGenerator) nodes str_epsilon solver).
#[local] Abbreviation driver_algos := (driver_algos str_epsilon).

Lemma fmap_app_nil {A} (o : option (list A)) : (λ l, l ++ []) <$> o = o.
Proof. destruct o; simpl; by rewrite ?app_nil_r. Qed.

Lemma appended_then {A} (h h' h'' : gmap string (list A)) key v vs :
  (∃ l, h !! key = Some l ∧ h' !! key = Some (l ++ [v])) →
  h'' !! key = (λ l, l ++ vs) <$> h' !! key →
  h'' !! key = (λ l, l ++ v :: vs) <$> h !! key.
Proof.
  intros (l & -> & Hl') ->. rewrite Hl'. simpl. by rewrite <-app_assoc.
Qed.

(** The columns that a run of returning calls appends. *)
Lemma run_all_columns es : ∀ s s' : Simulator,
  run_all es s = (Ok tt, s') →
  id s' = id s + len es ∧
  history s' !! "id"
  = (λ l, l ++ (VInt <$> seqZ (id s) (len es))) <$> history s !! "id" ∧
  history s' !! "val_index"
  = (λ l, l ++ ((λ e, VInt (arg_val_index (args_of e))) <$> es))
      <$> history s !! "val_index" ∧
  history s' !! "size"
  = (λ l, l ++ (recorded_size <$> es)) <$> history s !! "size" ∧
  history s' !! "valuation"
  = (λ l, l ++ ((λ e, VStr (arg_val_type (args_of e))) <$> es))
      <$> history s !! "valuation" ∧
  history s' !! "algo"
  = (λ l, l ++ ((λ e, VStr (recorded_algo e)) <$> es)) <$> history s !! "algo" ∧
  ∃ ds, length ds = length es ∧
        history s' !! "distortion"
        = (λ l, l ++ (VNum <$> ds)) <$> history s !! "distortion".
Proof.
  induction es as [|e es IH]; intros s s' Hr; simpl in Hr.
  - simplify_eq. unfold len.
    split; [simpl; lia|].
    repeat (split; [exact (eq_sym (fmap_app_nil _))|]).
    exists []. split; [done|]. exact (eq_sym (fmap_app_nil _)).
  - destruct (run e s) as [[[]|x] w] eqn:He; [|done].
    apply (run_ok_row nodes str_epsilon solver) in He
      as (_ & Hid & H1 & H2 & H3 & H4 & H5 & (d & H6) & _).
    destruct (IH _ _ Hr) as (Hid' & I1 & I2 & I3 & I4 & I5 & (ds & Hlen & I6)).
    unfold len in *. split; [rewrite Hid', Hid; simpl length; lia|].
    split.
    { simpl length. rewrite (seqZ_cons (id s)) by lia. rewrite fmap_cons.
      eapply appended_then; [done|]. rewrite I1, Hid.
      replace (Z.pred (Z.of_nat (S (length es)))) with (Z.of_nat (length es))
        by lia.
      by replace (Z.succ (id s)) with (id s + 1) by lia. }
    repeat (split; [by eapply appended_then|]).
    exists (d :: ds). split; [simpl; by rewrite Hlen|].
    by eapply appended_then.
Qed.

(** X5. The log is the table of the calls: after calls that all return
    on a new simulator, the k-th entry of each list belongs to the k-th
    call.  The lists hold the [val_index] and [val_type] the calls were
    given, the size and the algorithm string of each call, and as many
    distortions as there were calls. *)
Theorem history_is_table_of_calls (ig : InstanceGenerator) es (s : Simulator) :
  run_all es (__init__ ig) = (Ok tt, s) →
  history s !! "val_index"
  = Some ((λ e, VInt (arg_val_index (args_of e))) <$> es) ∧
  history s !! "size" = Some (recorded_size <$> es) ∧
  history s !! "valuation"
  = Some ((λ e, VStr (arg_val_type (args_of e))) <$> es) ∧
  history s !! "algo" = Some ((λ e, VStr (recorded_algo e)) <$> es) ∧
  ∃ ds, length ds = length es ∧
        history s !! "distortion" = Some (VNum <$> ds).
Proof.
  intros Hr.
  apply run_all_columns in Hr as (_ & _ & H2 & H3 & H4 & H5 & (ds & Hlen & H6)).
  rewrite init_has_keys in H2, H3, H4, H5, H6 by set_solver.
  repeat (split; [done|]). by exists ds.
Qed.

Lemma run_all_app es1 es2 (s s1 s2 : Simulator) :
  run_all es1 s = (Ok tt, s1) → run_all es2 s1 = (Ok tt, s2) →
  run_all (es1 ++ es2) s = (Ok tt, s2).
Proof.
  revert s. induction es1 as [|e es1 IH]; intros s H1 H2; simpl in *.
  - by simplify_eq.
  - destruct (run e s) as [[[]|x] w]; [|done]. by apply IH.
Qed.

Lemma run_graph_read_only e (s : Simulator) r w :
  read_only → run e s = (r, w) → graph w = arg_G (args_of e).
Proof.
  intros Hro Hr. rewrite run_stages in Hr.
  assert ((first_stages solver e).1.2 = arg_G (args_of e)) as Hg.
  { unfold first_stages.
    assert ((mechanism solver e).1 = arg_G (args_of e)) as Hm.
    { destruct e; simpl; apply Hro. }
    destruct (mechanism solver e).2 as [M|x]; simpl; [|done].
    destruct (has_second_pass e); simpl; [|done].
    pose proof (ro_reassign_labels _ Hro (mechanism solver e).1 M) as Hre.
    destruct (reassign_labels solver (mechanism solver e).1 M).2; simpl;
      by rewrite Hre. }
  destruct (first_stages solver e) as [[calls G1] [M|x]]; simpl in *;
    [|by simplify_eq].
  apply write_row_any in Hr as (_ & _ & [(Hg' & _ & _)|[Hg' _]]); simpl in Hg'.
  - by rewrite Hg'.
  - rewrite Hg'. unfold scorer.
    by destruct (scoring_prio e);
      rewrite ?(ro_calculate_distortion _ Hro),
        ?(ro_calculate_modified_distortion _ Hro).
Qed.

Lemma driver_call_ok mk val_index val_type (s : Simulator) G s' G' :
  (∀ a, args_of (mk a) = a) →
  driver_call mk val_index val_type (s, G) = (Ok tt, (s', G')) →
  run_all [mk (driver_args val_index val_type G)] s = (Ok tt, s') ∧
  (read_only → G' = G).
Proof.
  intros Hmk. unfold driver_call. simpl.
  destruct (run (mk (driver_args val_index val_type G)) s) as [r w] eqn:Hr.
  simpl. intros [= -> <- <-]. split; [done|]. intros Hro.
  apply run_graph_read_only in Hr; [|done]. by rewrite Hr, Hmk.
Qed.

(** The five calls of one instance, as a run of calls. *)
Lemma driver_instance_ok one tenth val_index val_type (s : Simulator) G s' G' :
  driver_instance one tenth val_index val_type (s, G) = (Ok tt, (s', G')) →
  ∃ G1 G2 G3 G4,
    run_all
      [SerialDictatorship (driver_args val_index val_type G);
       TopTradingCycles (driver_args val_index val_type G1);
       EpsilonMaxMatchingPrio (driver_args val_index val_type G2) one "pareto";
       EpsilonMaxMatchingPrio (driver_args val_index val_type G3) tenth "pareto";
       UpdatedHybridMaxMatching (driver_args val_index val_type G4)] s
    = (Ok tt, s') ∧
    (read_only → G1 = G ∧ G2 = G ∧ G3 = G ∧ G4 = G).
Proof.
  unfold driver_instance, and_then. intros Hr.
  destruct (driver_call SerialDictatorship _ _ _) as [[[]|?] [s1 G1]] eqn:H1;
    [|done].
  destruct (driver_call TopTradingCycles _ _ _) as [[[]|?] [s2 G2]] eqn:H2;
    [|done].
  destruct (driver_call (λ a, EpsilonMaxMatchingPrio a one "pareto") _ _ _)
    as [[[]|?] [s3 G3]] eqn:H3; [|done].
  destruct (driver_call (λ a, EpsilonMaxMatchingPrio a tenth "pareto") _ _ _)
    as [[[]|?] [s4 G4]] eqn:H4; [|done].
  apply driver_call_ok in H1 as [R1 E1]; [|done].
  apply driver_call_ok in H2 as [R2 E2]; [|done].
  apply driver_call_ok in H3 as [R3 E3]; [|done].
  apply driver_call_ok in H4 as [R4 E4]; [|done].
  apply driver_call_ok in Hr as [R5 E5]; [|done].
  exists G1, G2, G3, G4. split.
  - apply (run_all_app [_] _ _ s1); [done|].
    apply (run_all_app [_] _ _ s2); [done|].
    apply (run_all_app [_] _ _ s3); [done|].
    by apply (run_all_app [_] _ _ s4).
  - intros Hro. rewrite (E1 Hro) in *. rewrite (E2 Hro) in *.
    rewrite (E3 Hro) in *. by rewrite (E4 Hro) in *.
Qed.

(** The loop, as a run of calls. *)
Lemma driver_loop_ok one tenth val_type G_list :
  ∀ val_index (s s' : Simulator) val_index',
  driver_loop one tenth val_type G_list val_index s = (Ok tt, s', val_index') →
  val_index' = val_index + len G_list ∧
  ∃ es,
    run_all es s = (Ok tt, s') ∧
    (λ e, arg_val_index (args_of e)) <$> es
    = driver_val_indices G_list val_index ∧
    (λ e, arg_val_type (args_of e)) <$> es
    = replicate (5 * length G_list) val_type ∧
    recorded_algo <$> es
    = mjoin (replicate (length G_list) (driver_algos one tenth)) ∧
    (read_only →
     recorded_size <$> es
     = G_list ≫= λ G, replicate 5 (VInt (floordiv (len (nodes G)) 2))).
Proof.
  induction G_list as [|G G_list IH]; intros val_index s s' val_index' Hr;
    simpl in Hr.
  - simplify_eq. unfold len. split; [simpl; lia|]. by exists [].
  - destruct (driver_instance one tenth val_index val_type (s, G))
      as [[[]|x] [s1 G']] eqn:Hi; [|done].
    apply driver_instance_ok in Hi as (G1 & G2 & G3 & G4 & Hrun & HG).
    apply IH in Hr as (-> & es & Hes & Hvi & Hvt & Halgo & Hsize).
    unfold len. split; [simpl length; lia|].
    eexists (_ ++ es). split; [by eapply run_all_app|].
    rewrite !fmap_app, Hvi, Hvt, Halgo. simpl.
    split; [done|]. split.
    { replace (length G_list + S (length G_list + S (length G_list +
        S (length G_list + S (length G_list + 0)))))%nat
        with (4 + 5 * length G_list)%nat by lia. done. }
    split; [done|].
    intros Hro. destruct (HG Hro) as (-> & -> & -> & ->).
    by rewrite (Hsize Hro).
Qed.

(** X9. One pass of the driver's loop over a list of instances, when
    every call returns: [val_index] ends one higher per instance, the
    counter five higher per instance, and the log gains five rows per
    instance, which share the [val_index] of the instance and carry the
    five algorithm strings in the order of the calls. *)
Theorem driver_loop_rows one tenth val_type G_list val_index
    (s s' : Simulator) val_index' :
  driver_loop one tenth val_type G_list val_index s = (Ok tt, s', val_index') →
  val_index' = val_index + len G_list ∧
  id s' = id s + 5 * len G_list ∧
  history s' !! "val_index"
  = (λ l, l ++ (VInt <$> driver_val_indices G_list val_index))
      <$> history s !! "val_index" ∧
  history s' !! "valuation"
  = (λ l, l ++ replicate (5 * length G_list) (VStr val_type))
      <$> history s !! "valuation" ∧
  history s' !! "algo"
  = (λ l, l ++ (VStr <$> mjoin (replicate (length G_list)
                                  (driver_algos one tenth))))
      <$> history s !! "algo".
Proof.
  intros Hr.
  apply driver_loop_ok in Hr as (-> & es & Hes & Hvi & Hvt & Halgo & _).
  apply run_all_columns in Hes as (Hid & _ & H2 & _ & H4 & H5 & _).
  assert (len es = 5 * len G_list) as Hlen.
  { unfold len. rewrite <-(length_fmap (λ e, arg_val_type (args_of e))), Hvt,
      length_replicate. lia. }
  split; [done|]. split; [lia|].
  rewrite H2, H4, H5.
  rewrite <-Hvi, <-Halgo, <-fmap_replicate, <-Hvt, <-!list_fmap_compose.
  done.
Qed.

(** X10. The driver never passes [size]: with a solver that leaves the
    graph alone, each of the five rows of an instance records half the
    node count of its graph. *)
Theorem driver_loop_sizes one tenth val_type G_list val_index
    (s s' : Simulator) val_index' :
  read_only →
  driver_loop one tenth val_type G_list val_index s = (Ok tt, s', val_index') →
  history s' !! "size"
  = (λ l, l ++ (G_list ≫= λ G, replicate 5 (VInt (floordiv (len (nodes G)) 2))))
      <$> history s !! "size".
Proof.
  intros Hro Hr.
  apply driver_loop_ok in Hr as (_ & es & Hes & _ & _ & _ & Hsize).
  apply run_all_columns in Hes as (_ & _ & _ & H3 & _).
  by rewrite H3, (Hsize Hro).
Qed.

End SimulatorLog.

(** ** The names that the main block builds *)

(** X11. The options determine the names.  Over the values that
    [--scale] and [--norm] can take (the choices and the defaults),
    different options give different [val_type]s, hence different
    result files, and no result file has the name of an instances
    file; over these scales and the five sizes, different pairs of size
    and scale give different preference files. *)
Theorem driver_names_determine_options scale scale' norm norm' size size' :
  scale ∈ scale_default :: scale_choices →
  scale' ∈ scale_default :: scale_choices →
  norm ∈ norm_default :: norm_choices →
  norm' ∈ norm_default :: norm_choices →
  size ∈ driver_sizes → size' ∈ driver_sizes →
  (results_csv (driver_val_type scale norm)
   = results_csv (driver_val_type scale' norm') →
   scale = scale' ∧ norm = norm') ∧
  results_csv (driver_val_type scale norm)
  ≠ instances_csv (driver_val_type scale' norm') ∧
  (driver_filename size scale = driver_filename size' scale' →
   size = size' ∧ scale = scale').
Proof.
  revert scale scale' norm norm' size size'.
  assert (Forall (λ scale, Forall (λ scale', Forall (λ norm, Forall (λ norm',
            Forall (λ size, Forall (λ size',
              (results_csv (driver_val_type scale norm)
               = results_csv (driver_val_type scale' norm') →
               scale = scale' ∧ norm = norm') ∧
              results_csv (driver_val_type scale norm)
              ≠ instances_csv (driver_val_type scale' norm') ∧
              (driver_filename size scale = driver_filename size' scale' →
               size = size' ∧ scale = scale'))
            driver_sizes) driver_sizes)
            (norm_default :: norm_choices)) (norm_default :: norm_choices))
            (scale_default :: scale_choices)) (scale_default :: scale_choices))
    as Hall by (refine (bool_decide_unpack _ _); vm_compute; exact I).
  intros scale scale' norm norm' size size' Hs Hs' Hn Hn' Hz Hz'.
  rewrite Forall_forall in Hall. specialize (Hall _ Hs).
  rewrite Forall_forall in Hall. specialize (Hall _ Hs').
  rewrite Forall_forall in Hall. specialize (Hall _ Hn).
  rewrite Forall_forall in Hall. specialize (Hall _ Hn').
  rewrite Forall_forall in Hall. specialize (Hall _ Hz).
  rewrite Forall_forall in Hall. exact (Hall _ Hz').
Qed.

(** ** The statements on concrete runs *)

Lemma toy_solver_read_only : read_only toy_solver.
Proof. by split. Qed.

Lemma toy_solver_never_raises : never_raises toy_solver.
Proof. split; intros; by eexists. Qed.

(** With [toy_solver], every call on a simulator that has its six lists
    returns. *)
Lemma toy_run_returns e : ∃ w, toy_run e = (Ok tt, w).
Proof.
  apply (run_returns (λ G, G) str_int toy_solver);
    [apply toy_solver_never_raises|].
  intros key Hkey. unfold toy_simulator. by rewrite init_has_keys.
Qed.

(** C1 on a run of [updated_hybrid_max_matching_experiment]. *)
Lemma updated_hybrid_scores_both_stages_witness :
  toy_run (UpdatedHybridMaxMatching (toy_args None))
  = (Ok tt, toy_world (UpdatedHybridMaxMatching (toy_args None))) ∧
  ∃ G1 M G2 H M_0 G3 d,
    updated_hybrid_max_matching toy_solver [1; 2; 3; 4] None = (G1, Ok M) ∧
    reassign_labels toy_solver G1 M = (G2, Ok H) ∧
    (top_trading_cycles toy_solver H None).2 = Ok M_0 ∧
    calculate_modified_distortion toy_solver G2 M_0 "pareto" = (G3, Ok d) ∧
    trace (toy_world (UpdatedHybridMaxMatching (toy_args None)))
    = [call_updated_hybrid_max_matching [1; 2; 3; 4] None;
       call_reassign_labels G1 M;
       call_top_trading_cycles H None;
       call_calculate_modified_distortion G2 M_0 "pareto"] ∧
    appended (history toy_simulator)
      (history (self (toy_world (UpdatedHybridMaxMatching (toy_args None)))))
      "distortion" (VNum d).
Proof.
  assert (toy_run (UpdatedHybridMaxMatching (toy_args None))
          = (Ok tt, toy_world (UpdatedHybridMaxMatching (toy_args None))))
    as Hrun by (vm_compute; reflexivity).
  split; [exact Hrun|].
  exact (updated_hybrid_scores_both_stages (λ G, G) str_int toy_solver (toy_args None) _ _ Hrun).
Defined.

(** C3 on a run of [partial_max_matching_experiment]. *)
Lemma second_pass_follows_coarse_first_stage_witness :
  toy_run (PartialMaxMatching (toy_args None) 3)
  = (Ok tt, toy_world (PartialMaxMatching (toy_args None) 3)) ∧
  ((∃ c1, c1 ∈ trace (toy_world (PartialMaxMatching (toy_args None) 3)) ∧
          is_coarse_first_stage c1) ↔ True) ∧
  (∀ c1 c,
     c1 ∈ trace (toy_world (PartialMaxMatching (toy_args None) 3)) →
     is_coarse_first_stage c1 →
     c ∈ trace (toy_world (PartialMaxMatching (toy_args None) 3)) →
     is_scoring c →
     ∃ G1 M G2 H M_0,
       stage_result toy_solver c1 = Some (G1, Ok M) ∧
       reassign_labels toy_solver G1 M = (G2, Ok H) ∧
       (top_trading_cycles toy_solver H None).2 = Ok M_0 ∧
       c = call_calculate_distortion G2 M_0 ∧
       trace (toy_world (PartialMaxMatching (toy_args None) 3))
       = [c1; call_reassign_labels G1 M; call_top_trading_cycles H None; c]) ∧
  (Ok tt = Ok tt →
   ∃ c, c ∈ trace (toy_world (PartialMaxMatching (toy_args None) 3)) ∧
        is_scoring c).
Proof.
  assert (toy_run (PartialMaxMatching (toy_args None) 3)
          = (Ok tt, toy_world (PartialMaxMatching (toy_args None) 3)))
    as Hrun by (vm_compute; reflexivity).
  split; [exact Hrun|].
  exact (second_pass_follows_coarse_first_stage (λ G, G) str_int toy_solver
           (PartialMaxMatching (toy_args None) 3) _ _ _ Hrun).
Defined.

(** C6 on one round of the driver. *)
Lemma history_rows_and_ids_witness :
  run_all (λ G, G) str_int toy_solver toy_round (__init__ tt)
  = (Ok tt, toy_final) ∧
  (∀ key, key ∈ history_keys →
     ∃ vs, history toy_final !! key = Some vs ∧ length vs = 4%nat) ∧
  history toy_final !! "id" = Some (VInt <$> seqZ 1 4) ∧
  id toy_final = 1 + 4 ∧
  (∀ e w, run (λ G, G) str_int toy_solver e toy_final = (Ok tt, w) →
     id (self w) = id toy_final + 1 ∧
     ∀ key, key ∈ history_keys →
       ∃ v, appended (history toy_final) (history (self w)) key v).
Proof.
  assert (run_all (λ G, G) str_int toy_solver toy_round (__init__ tt)
          = (Ok tt, toy_final)) as Hrun by (vm_compute; reflexivity).
  split; [exact Hrun|].
  exact (history_rows_and_ids (λ G, G) str_int toy_solver tt toy_round toy_final Hrun).
Defined.

(** C7 on a run of [serial_dictatorship_experiment]. *)
Lemma experiments_touch_only_history_and_id_witness :
  read_only toy_solver ∧
  toy_run (SerialDictatorship (toy_args None))
  = (Ok tt, toy_world (SerialDictatorship (toy_args None))) ∧
  graph (toy_world (SerialDictatorship (toy_args None))) = [1; 2; 3; 4] ∧
  instance_generator (self (toy_world (SerialDictatorship (toy_args None))))
  = instance_generator toy_simulator ∧
  (∀ key, key ∉ history_keys →
     history (self (toy_world (SerialDictatorship (toy_args None)))) !! key
     = history toy_simulator !! key).
Proof.
  assert (read_only toy_solver) as Hro by (split; reflexivity).
  assert (toy_run (SerialDictatorship (toy_args None))
          = (Ok tt, toy_world (SerialDictatorship (toy_args None))))
    as Hrun by (vm_compute; reflexivity).
  split; [exact Hro|]. split; [exact Hrun|].
  exact (experiments_touch_only_history_and_id (λ G, G) str_int toy_solver
           (SerialDictatorship (toy_args None)) _ _ _ Hro Hrun).
Defined.

(** C8 on [modified_max_matching_experiment] called with
    [prio='fair']: the string recorded does not mention [prio]. *)
Lemma algo_string_recorded_witness :
  toy_run (ModifiedMaxMatching (toy_args None) "fair")
  = (Ok tt, toy_world (ModifiedMaxMatching (toy_args None) "fair")) ∧
  appended (history toy_simulator)
    (history (self (toy_world (ModifiedMaxMatching (toy_args None) "fair"))))
    "algo" (VStr "modified_max_matching").
Proof.
  assert (toy_run (ModifiedMaxMatching (toy_args None) "fair")
          = (Ok tt, toy_world (ModifiedMaxMatching (toy_args None) "fair")))
    as Hrun by (vm_compute; reflexivity).
  split; [exact Hrun|].
  exact (algo_string_recorded (λ G, G) str_int toy_solver
           (ModifiedMaxMatching (toy_args None) "fair") _ _ Hrun).
Defined.

(** C9 on a run of [top_trading_cycles_experiment]. *)
Lemma scorer_fixed_per_method_witness :
  toy_run (TopTradingCycles (toy_args None))
  = (Ok tt, toy_world (TopTradingCycles (toy_args None))) ∧
  (∀ c, c ∈ trace (toy_world (TopTradingCycles (toy_args None))) →
        is_scoring c →
        ∃ G M, c = call_calculate_modified_distortion G M "pareto") ∧
  (Ok tt = Ok tt →
   ∃ c d, last (trace (toy_world (TopTradingCycles (toy_args None)))) = Some c ∧
          is_scoring c ∧
          snd <$> score_result toy_solver c = Some (Ok d) ∧
          appended (history toy_simulator)
            (history (self (toy_world (TopTradingCycles (toy_args None)))))
            "distortion" (VNum d)).
Proof.
  assert (toy_run (TopTradingCycles (toy_args None))
          = (Ok tt, toy_world (TopTradingCycles (toy_args None))))
    as Hrun by (vm_compute; reflexivity).
  split; [exact Hrun|].
  exact (scorer_fixed_per_method (λ G, G) str_int toy_solver
           (TopTradingCycles (toy_args None)) _ _ _ Hrun).
Defined.

(** C10 on [twothirds_max_matching_experiment] called without
    [size]. *)
Lemma size_recorded_when_omitted_witness :
  arg_size (toy_args None) = None ∧
  toy_run (TwothirdsMaxMatching (toy_args None) "fair")
  = (Ok tt, toy_world (TwothirdsMaxMatching (toy_args None) "fair")) ∧
  appended (history toy_simulator)
    (history (self (toy_world (TwothirdsMaxMatching (toy_args None) "fair"))))
    "size" VNone.
Proof.
  assert (toy_run (TwothirdsMaxMatching (toy_args None) "fair")
          = (Ok tt, toy_world (TwothirdsMaxMatching (toy_args None) "fair")))
    as Hrun by (vm_compute; reflexivity).
  split; [reflexivity|]. split; [exact Hrun|].
  exact (size_recorded_when_omitted (λ G, G) str_int toy_solver
           (TwothirdsMaxMatching (toy_args None) "fair") _ _ eq_refl Hrun).
Defined.

(** The strings of [history['algo']] on concrete calls. *)
Example str_int_examples : str_int 3 = "3" ∧ str_int (-12) = "-12" ∧ str_int 0 = "0".
Proof. vm_compute. done. Qed.

Example partial_max_matching_algo_string :
  history (self (toy_world (PartialMaxMatching (toy_args None) 3))) !! "algo"
  = Some [VStr "partial_max_matching_3"].
Proof. vm_compute. reflexivity. Qed.

Example epsilon_max_matching_prio_algo_string :
  history (self (toy_world (EpsilonMaxMatchingPrio (toy_args None) 1 "pareto")))
    !! "algo"
  = Some [VStr "epsilon_max_matching pareto1"].
Proof. vm_compute. reflexivity. Qed.

(** Two calls of [modified_max_matching_experiment] that differ in
    [prio] record the same string. *)
Example modified_max_matching_algo_string :
  history (self (toy_world (ModifiedMaxMatching (toy_args None) "pareto")))
    !! "algo"
  = Some [VStr "modified_max_matching"] ∧
  history (self (toy_world (ModifiedMaxMatching (toy_args None) "fair")))
    !! "algo"
  = Some [VStr "modified_max_matching"].
Proof. vm_compute. done. Qed.

(** A call whose scoring raises has already written five entries of
    its row and moved the counter. *)
Example scoring_raises_leaves_partial_row :
  let out := run (λ G, G) str_int toy_solver_score_raises
               (SerialDictatorship (toy_args None)) toy_simulator in
  out.1 = Raise (SolverError "ZeroDivisionError") ∧
  history (self out.2) !! "id" = Some [VInt 1] ∧
  history (self out.2) !! "algo" = Some [VStr "serial_dictatorship"] ∧
  history (self out.2) !! "distortion" = Some [] ∧
  id (self out.2) = 2.
Proof. vm_compute. done. Qed.

(** With [size] omitted the other methods record half the node count:
    2 for the four nodes of the toy graph. *)
Example serial_dictatorship_size_defaulted :
  history (self (toy_world (SerialDictatorship (toy_args None)))) !! "size"
  = Some [VInt 2].
Proof. vm_compute. reflexivity. Qed.

(** The weights and the optimum of the example of §8. *)
Example example_graph_optimum :
  SolverCore.OPT SolverCore.example_graph = 7%Q ∧
  SolverCore.calculate_distortion SolverCore.example_graph [(1, 3); (2, 4)]
  = Ok (SolverCore.Ratio (7 # 7)) ∧
  SolverCore.calculate_distortion SolverCore.example_graph [(1, 4); (2, 3)]
  = Ok (SolverCore.Ratio (7 # 3)).
Proof. vm_compute. done. Qed.

(** C2 as stated fails on the graph without edges: the empty matching
    is feasible and has the maximum weight, 0, yet
    [calculate_distortion] raises and returns no value, let alone 1. *)
Lemma calculate_distortion_zero_optimum :
  SolverCore.feasible SolverCore.edgeless_graph [] ∧
  (SolverCore.welfare SolverCore.edgeless_graph []
   == SolverCore.OPT SolverCore.edgeless_graph)%Q ∧
  SolverCore.calculate_distortion SolverCore.edgeless_graph []
  = Raise SolverCore.InvalidGraphError ∧
  ¬ ∃ d, SolverCore.calculate_distortion SolverCore.edgeless_graph [] = Ok d ∧
         SolverCore.at_least_one d ∧
         (SolverCore.is_one d ↔
          (SolverCore.welfare SolverCore.edgeless_graph []
           == SolverCore.OPT SolverCore.edgeless_graph)%Q).
Proof.
  split; [by repeat constructor|]. split; [by vm_compute|].
  split; [by vm_compute|]. by intros (d & Hd & _).
Qed.

(** C2, amended, on the example of §8. *)
Lemma calculate_distortion_at_least_one_witness :
  SolverCore.nonneg_weights SolverCore.example_graph ∧
  SolverCore.feasible SolverCore.example_graph SolverCore.example_matching ∧
  ((0 < SolverCore.OPT SolverCore.example_graph)%Q →
   ∃ d, SolverCore.calculate_distortion SolverCore.example_graph
          SolverCore.example_matching = Ok d ∧
        SolverCore.at_least_one d ∧
        (SolverCore.is_one d ↔
         (SolverCore.welfare SolverCore.example_graph SolverCore.example_matching
          == SolverCore.OPT SolverCore.example_graph)%Q)) ∧
  ((SolverCore.OPT SolverCore.example_graph == 0)%Q →
   ∃ x, SolverCore.calculate_distortion SolverCore.example_graph
          SolverCore.example_matching = Raise x).
Proof.
  assert (SolverCore.nonneg_weights SolverCore.example_graph) as Hnn
    by (vm_compute; exact I).
  assert (SolverCore.feasible SolverCore.example_graph SolverCore.example_matching)
    as Hfeas by (refine (bool_decide_unpack _ _); vm_compute; exact I).
  split; [exact Hnn|]. split; [exact Hfeas|].
  exact (calculate_distortion_at_least_one _ _ Hnn Hfeas).
Defined.

(** C4 on the example of §8. *)
Lemma modified_max_matching_weight_witness :
  SolverCore.check_instance SolverCore.example_graph None = Ok 2 ∧
  ∃ M, SolverCore.modified_max_matching SolverCore.example_graph
         SolverCore.rank_maximal None = Ok M ∧
       SolverCore.feasible SolverCore.example_graph M ∧
       (SolverCore.welfare SolverCore.example_graph M
        == SolverCore.OPT SolverCore.example_graph)%Q ∧
       (∀ M', SolverCore.feasible SolverCore.example_graph M' →
              (SolverCore.welfare SolverCore.example_graph M'
               <= SolverCore.welfare SolverCore.example_graph M)%Q) ∧
       (∀ prio', ∃ M',
          SolverCore.modified_max_matching SolverCore.example_graph prio' None
          = Ok M' ∧
          (SolverCore.welfare SolverCore.example_graph M'
           == SolverCore.welfare SolverCore.example_graph M)%Q).
Proof.
  assert (SolverCore.check_instance SolverCore.example_graph None = Ok 2)
    as Hcheck by (vm_compute; reflexivity).
  split; [exact Hcheck|].
  exact (modified_max_matching_weight _ SolverCore.rank_maximal _ _ Hcheck).
Defined.

(** C5 on the example of §8, with [epsilon = 1/10]. *)
Lemma epsilon_max_matching_weight_witness :
  (0 < 1 # 10)%Q ∧ (1 # 10 <= 1)%Q ∧
  SolverCore.check_instance SolverCore.example_graph None = Ok 2 ∧
  ∃ M, SolverCore.epsilon_max_matching SolverCore.example_graph (1 # 10)
         SolverCore.pareto None = Ok M ∧
       SolverCore.feasible SolverCore.example_graph M ∧
       ((1 - (1 # 10)) * SolverCore.OPT SolverCore.example_graph
        <= SolverCore.welfare SolverCore.example_graph M)%Q.
Proof.
  assert (0 < 1 # 10)%Q as Hpos by reflexivity.
  assert (1 # 10 <= 1)%Q as Hle by (apply Qle_bool_iff; reflexivity).
  assert (SolverCore.check_instance SolverCore.example_graph None = Ok 2)
    as Hcheck by (vm_compute; reflexivity).
  split; [exact Hpos|]. split; [exact Hle|]. split; [exact Hcheck|].
  exact (epsilon_max_matching_weight _ _ SolverCore.pareto _ _ Hpos Hle Hcheck).
Defined.

(** ** The further statements on concrete runs *)

Lemma toy_solver_with_never_raises : never_raises (toy_solver_with false false).
Proof. split; intros; by eexists. Qed.

Lemma toy_solver_with_read_only b1 b2 : read_only (toy_solver_with b1 b2).
Proof. by split. Qed.

(** X1 on a call whose mechanism raises. *)
Lemma mechanism_failure_leaves_simulator_witness :
  has_keys toy_simulator ∧
  toy_failed_mechanism
  = (Raise (SolverError "InvalidGraphError"), toy_failed_mechanism.2) ∧
  Forall (λ c, ¬ is_scoring c) (trace toy_failed_mechanism.2) ∧
  self toy_failed_mechanism.2 = toy_simulator.
Proof.
  assert (has_keys toy_simulator) as Hkeys
    by (refine (bool_decide_unpack _ _); vm_compute; exact I).
  assert (toy_failed_mechanism
          = (Raise (SolverError "InvalidGraphError"), toy_failed_mechanism.2))
    as Hrun by (vm_compute; reflexivity).
  assert (Forall (λ c, ¬ is_scoring c) (trace toy_failed_mechanism.2)) as Hnone
    by (refine (bool_decide_unpack _ _); vm_compute; exact I).
  split; [exact Hkeys|]. split; [exact Hrun|]. split; [exact Hnone|].
  exact (mechanism_failure_leaves_simulator (λ G, G) (λ epsilon, epsilon)
           (toy_solver_with true false) _ _ _ _ Hkeys Hrun Hnone).
Defined.

(** X2 on a call whose scoring function raises. *)
Lemma scoring_failure_leaves_partial_row_witness :
  has_keys toy_simulator ∧
  toy_failed_scoring
  = (Raise (SolverError "ZeroDivisionError"), toy_failed_scoring.2) ∧
  Exists (λ c, is_scoring c) (trace toy_failed_scoring.2) ∧
  id (self toy_failed_scoring.2) = id toy_simulator + 1 ∧
  appended (history toy_simulator) (history (self toy_failed_scoring.2))
    "id" (VInt (id toy_simulator)) ∧
  appended (history toy_simulator) (history (self toy_failed_scoring.2))
    "val_index" (VInt 7) ∧
  appended (history toy_simulator) (history (self toy_failed_scoring.2))
    "size" (VInt 2) ∧
  appended (history toy_simulator) (history (self toy_failed_scoring.2))
    "valuation" (VStr "theta1unitrange") ∧
  appended (history toy_simulator) (history (self toy_failed_scoring.2))
    "algo" (VStr "partial_max_matching_3") ∧
  history (self toy_failed_scoring.2) !! "distortion"
  = history toy_simulator !! "distortion".
Proof.
  assert (has_keys toy_simulator) as Hkeys
    by (refine (bool_decide_unpack _ _); vm_compute; exact I).
  assert (toy_failed_scoring
          = (Raise (SolverError "ZeroDivisionError"), toy_failed_scoring.2))
    as Hrun by (vm_compute; reflexivity).
  assert (Exists (λ c, is_scoring c) (trace toy_failed_scoring.2)) as Hsome
    by (refine (bool_decide_unpack _ _); vm_compute; exact I).
  split; [exact Hkeys|]. split; [exact Hrun|]. split; [exact Hsome|].
  exact (scoring_failure_leaves_partial_row (λ G, G) (λ epsilon, epsilon)
           (toy_solver_with false true) toy_partial _ _ _ Hkeys Hrun Hsome).
Defined.

(** X3 on a new simulator. *)
Lemma returns_iff_has_keys_witness :
  never_raises (toy_solver_with false false) ∧
  (has_keys toy_simulator ↔
   ∃ w, toy_run_with false false toy_partial toy_simulator = (Ok tt, w)).
Proof.
  assert (never_raises (toy_solver_with false false)) as Hnr
    by (split; intros; eexists; reflexivity).
  split; [exact Hnr|].
  exact (returns_iff_has_keys (λ G, G) (λ epsilon, epsilon)
           (toy_solver_with false false) toy_partial toy_simulator Hnr).
Defined.

(** X4 on a simulator without its ['size'] list. *)
Lemma missing_key_raises_KeyError_witness :
  never_raises (toy_solver_with false false) ∧
  ¬ has_keys toy_simulator_without_size ∧
  ∃ key,
    toy_missing_size.1 = Raise (KeyError key) ∧
    first_missing_key toy_simulator_without_size key ∧
    head (trace toy_missing_size.2) = Some (mechanism_call toy_partial) ∧
    Forall (λ c, ¬ is_scoring c) (trace toy_missing_size.2).
Proof.
  assert (never_raises (toy_solver_with false false)) as Hnr
    by (split; intros; eexists; reflexivity).
  assert (¬ has_keys toy_simulator_without_size) as Hkeys
    by (refine (bool_decide_unpack _ _); vm_compute; exact I).
  split; [exact Hnr|]. split; [exact Hkeys|].
  exact (missing_key_raises_KeyError (λ G, G) (λ epsilon, epsilon)
           (toy_solver_with false false) toy_partial
           toy_simulator_without_size _ _ Hnr Hkeys
           (surjective_pairing toy_missing_size)).
Defined.

(** X5 on one round of the driver. *)
Lemma history_is_table_of_calls_witness :
  run_all (λ G, G) str_int toy_solver toy_round (__init__ tt)
  = (Ok tt, toy_final) ∧
  history toy_final !! "val_index"
  = Some ((λ e, VInt (arg_val_index (args_of e))) <$> toy_round) ∧
  history toy_final !! "size"
  = Some (recorded_size (λ G, G) <$> toy_round) ∧
  history toy_final !! "valuation"
  = Some ((λ e, VStr (arg_val_type (args_of e))) <$> toy_round) ∧
  history toy_final !! "algo"
  = Some ((λ e, VStr (recorded_algo str_int e)) <$> toy_round) ∧
  ∃ ds, length ds = length toy_round ∧
        history toy_final !! "distortion" = Some (VNum <$> ds).
Proof.
  assert (run_all (λ G, G) str_int toy_solver toy_round (__init__ tt)
          = (Ok tt, toy_final)) as Hrun by (vm_compute; reflexivity).
  split; [exact Hrun|].
  exact (history_is_table_of_calls (λ G, G) str_int toy_solver tt toy_round
           toy_final Hrun).
Defined.

(** X6 on a run of [twothirds_max_matching_experiment]. *)
Lemma single_stage_scores_mechanism_matching_witness :
  has_second_pass (Epsilon := Z) (TwothirdsMaxMatching (toy_args None) "fair")
  = false ∧
  toy_run (TwothirdsMaxMatching (toy_args None) "fair")
  = (Ok tt, toy_world (TwothirdsMaxMatching (toy_args None) "fair")) ∧
  ∃ M d,
    (twothirds_max_matching toy_solver [1; 2; 3; 4] "fair" None).2 = Ok M ∧
    trace (toy_world (TwothirdsMaxMatching (toy_args None) "fair"))
    = [call_twothirds_max_matching [1; 2; 3; 4] "fair" None;
       call_calculate_modified_distortion
         (twothirds_max_matching toy_solver [1; 2; 3; 4] "fair" None).1 M
         "fair"] ∧
    (calculate_modified_distortion toy_solver
       (twothirds_max_matching toy_solver [1; 2; 3; 4] "fair" None).1 M
       "fair").2 = Ok d ∧
    appended (history toy_simulator)
      (history (self (toy_world (TwothirdsMaxMatching (toy_args None) "fair"))))
      "distortion" (VNum d).
Proof.
  assert (toy_run (TwothirdsMaxMatching (toy_args None) "fair")
          = (Ok tt, toy_world (TwothirdsMaxMatching (toy_args None) "fair")))
    as Hrun by (vm_compute; reflexivity).
  split; [reflexivity|]. split; [exact Hrun|].
  exact (single_stage_scores_mechanism_matching (λ G, G) str_int toy_solver
           (TwothirdsMaxMatching (toy_args None) "fair") _ _ eq_refl Hrun).
Defined.

(** X7 on a call whose scoring function raises. *)
Lemma solver_calls_shape_witness :
  toy_failed_scoring
  = (Raise (SolverError "ZeroDivisionError"), toy_failed_scoring.2) ∧
  head (trace toy_failed_scoring.2) = Some (mechanism_call toy_partial) ∧
  (length (trace toy_failed_scoring.2) ≤ 4)%nat ∧
  (∀ i c, trace toy_failed_scoring.2 !! i = Some c → is_scoring c →
          S i = length (trace toy_failed_scoring.2)).
Proof.
  assert (toy_failed_scoring
          = (Raise (SolverError "ZeroDivisionError"), toy_failed_scoring.2))
    as Hrun by (vm_compute; reflexivity).
  split; [exact Hrun|].
  exact (solver_calls_shape (λ G, G) (λ epsilon, epsilon)
           (toy_solver_with false true) toy_partial _ _ _ Hrun).
Defined.

(** X8 on a call that raises for a missing list. *)
Lemma history_only_grows_witness :
  toy_missing_size = (Raise (KeyError "size"), toy_missing_size.2) ∧
  instance_generator (self toy_missing_size.2)
  = instance_generator toy_simulator_without_size ∧
  id toy_simulator_without_size ≤ id (self toy_missing_size.2)
  ≤ id toy_simulator_without_size + 1 ∧
  ∀ key,
    match history toy_simulator_without_size !! key with
    | None => history (self toy_missing_size.2) !! key = None
    | Some l =>
        ∃ vs, history (self toy_missing_size.2) !! key = Some (l ++ vs) ∧
              (length vs ≤ 1)%nat ∧ (key ∉ history_keys → vs = [])
    end.
Proof.
  assert (toy_missing_size = (Raise (KeyError "size"), toy_missing_size.2))
    as Hrun by (vm_compute; reflexivity).
  split; [exact Hrun|].
  exact (history_only_grows (λ G, G) (λ epsilon, epsilon)
           (toy_solver_with false false) toy_partial _ _ _ Hrun).
Defined.

(** X9 on the loop over two instances. *)
Lemma driver_loop_rows_witness :
  toy_driver_loop = (Ok tt, toy_driver_loop.1.2, 102) ∧
  102 = 100 + len [[1; 2; 3; 4]; [1; 2]] ∧
  id toy_driver_loop.1.2 = id toy_simulator + 5 * len [[1; 2; 3; 4]; [1; 2]] ∧
  history toy_driver_loop.1.2 !! "val_index"
  = (λ l, l ++ (VInt <$> driver_val_indices [[1; 2; 3; 4]; [1; 2]] 100))
      <$> history toy_simulator !! "val_index" ∧
  history toy_driver_loop.1.2 !! "valuation"
  = (λ l, l ++ replicate (5 * 2) (VStr "theta1unitrange"))
      <$> history toy_simulator !! "valuation" ∧
  history toy_driver_loop.1.2 !! "algo"
  = (λ l, l ++ (VStr <$> mjoin (replicate 2
                                  (driver_algos (λ epsilon, epsilon) "1" "0.1"))))
      <$> history toy_simulator !! "algo".
Proof.
  assert (toy_driver_loop = (Ok tt, toy_driver_loop.1.2, 102)) as Hrun
    by (vm_compute; reflexivity).
  split; [exact Hrun|].
  exact (driver_loop_rows (λ G, G) (λ epsilon, epsilon)
           (toy_solver_with false false) "1" "0.1" "theta1unitrange"
           [[1; 2; 3; 4]; [1; 2]] 100 toy_simulator _ _ Hrun).
Defined.

(** X10 on the loop over two instances, of four and of two nodes. *)
Lemma driver_loop_sizes_witness :
  read_only (toy_solver_with false false) ∧
  toy_driver_loop = (Ok tt, toy_driver_loop.1.2, 102) ∧
  history toy_driver_loop.1.2 !! "size"
  = (λ l, l ++ ([[1; 2; 3; 4]; [1; 2]] ≫=
                λ G, replicate 5 (VInt (floordiv (len G) 2))))
      <$> history toy_simulator !! "size".
Proof.
  assert (read_only (toy_solver_with false false)) as Hro
    by (split; reflexivity).
  assert (toy_driver_loop = (Ok tt, toy_driver_loop.1.2, 102)) as Hrun
    by (vm_compute; reflexivity).
  split; [exact Hro|]. split; [exact Hrun|].
  exact (driver_loop_sizes (λ G, G) (λ epsilon, epsilon)
           (toy_solver_with false false) "1" "0.1" "theta1unitrange"
           [[1; 2; 3; 4]; [1; 2]] 100 toy_simulator _ _ Hro Hrun).
Defined.

(** The log after this loop. *)
Example toy_driver_loop_log :
  history toy_driver_loop.1.2 !! "algo"
  = Some (VStr <$> ["serial_dictatorship"; "ttc_matching";
                    "epsilon_max_matching pareto1";
                    "epsilon_max_matching pareto0.1";
                    "updated_hybrid_max_matching";
                    "serial_dictatorship"; "ttc_matching";
                    "epsilon_max_matching pareto1";
                    "epsilon_max_matching pareto0.1";
                    "updated_hybrid_max_matching"]) ∧
  history toy_driver_loop.1.2 !! "val_index"
  = Some (VInt <$> [100; 100; 100; 100; 100; 101; 101; 101; 101; 101]) ∧
  history toy_driver_loop.1.2 !! "size"
  = Some (VInt <$> [2; 2; 2; 2; 2; 1; 1; 1; 1; 1]).
Proof. vm_compute. done. Qed.

(** X11 on the default scale and the choice ["1"]. *)
Lemma driver_names_determine_options_witness :
  "1." ∈ scale_default :: scale_choices ∧
  "1" ∈ scale_default :: scale_choices ∧
  "range" ∈ norm_default :: norm_choices ∧
  "sum" ∈ norm_default :: norm_choices ∧
  5 ∈ driver_sizes ∧ 50 ∈ driver_sizes ∧
  (results_csv (driver_val_type "1." "range")
   = results_csv (driver_val_type "1" "sum") →
   "1." = "1" ∧ "range" = "sum") ∧
  results_csv (driver_val_type "1." "range")
  ≠ instances_csv (driver_val_type "1" "sum") ∧
  (driver_filename 5 "1." = driver_filename 50 "1" → 5 = 50 ∧ "1." = "1").
Proof.
  assert ("1." ∈ scale_default :: scale_choices) as H1
    by (refine (bool_decide_unpack _ _); vm_compute; exact I).
  assert ("1" ∈ scale_default :: scale_choices) as H2
    by (refine (bool_decide_unpack _ _); vm_compute; exact I).
  assert ("range" ∈ norm_default :: norm_choices) as H3
    by (refine (bool_decide_unpack _ _); vm_compute; exact I).
  assert ("sum" ∈ norm_default :: norm_choices) as H4
    by (refine (bool_decide_unpack _ _); vm_compute; exact I).
  assert (5 ∈ driver_sizes) as H5
    by (refine (bool_decide_unpack _ _); vm_compute; exact I).
  assert (50 ∈ driver_sizes) as H6
    by (refine (bool_decide_unpack _ _); vm_compute; exact I).
  repeat (split; [assumption|]).
  exact (driver_names_determine_options _ _ _ _ _ _ H1 H2 H3 H4 H5 H6).
Defined.

(** With [--scale] omitted the preference file of size 5 is this one. *)
Example driver_filename_default_scale :
  driver_filename 5 scale_default = "rdata/ord_n5_theta1..txt".
Proof. vm_compute. reflexivity. Qed.
